(** * MultiplePlaylists: a model of [src/plugins/multipleplaylists/src/index.ts]

  The plugin is glue between the host's extension API ([@luna/lib]) and the
  DOM.  The model below keeps that shape:

  - JavaScript values that the code tests for truthiness or compares with
    [===] are kept as a small value type ([JS.value]);
  - the host ([redux], [MediaItem], [Playlist]) is an interface
    ([HostApi]) over an abstract host state, whose calls may throw;
  - the document, the pending [setTimeout] callbacks, the log of host calls
    and the closure variables of [setupContextMenuIntegration] form one
    [World] that every function transforms;
  - an [async] function is read sequentially: an [await] is the point where
    the awaited host call delivers its value or throws.

  [trace.*] diagnostics only write to the console and are left out. *)

From Stdlib Require Import ZArith List String Ascii Bool Lia DecimalString Permutation.
Import ListNotations.
Open Scope string_scope.

(** ** JavaScript values *)

Module JS.

(** The primitive values the plugin inspects: identifiers are numbers or
    strings, missing properties are [undefined].  Numbers are the integers
    (identifiers and track counts) below 10^21 in absolute value, which a
    template literal prints digit by digit; from 10^21 on JavaScript prints
    exponent form, which [to_string] does not model. *)
Inductive value :=
| Undefined
| Null
| Num (n : Z)
| Str (s : string).

(** [if (v)], [!v], [v || w] *)
Definition truthy (v : value) : bool :=
  match v with
  | Undefined | Null => false
  | Num n => negb (n =? 0)%Z
  | Str s => negb (s =? EmptyString)%string
  end.

(** [a === b] *)
Definition strict_eq (a b : value) : bool :=
  match a, b with
  | Undefined, Undefined => true
  | Null, Null => true
  | Num n, Num m => (n =? m)%Z
  | Str s, Str t => (s =? t)%string
  | _, _ => false
  end.

(** [a || b] *)
Definition or (a b : value) : value := if truthy a then a else b.

(** the conversion a template literal applies to [${v}] *)
Definition to_string (v : value) : string :=
  match v with
  | Undefined => "undefined"
  | Null => "null"
  | Num n => NilZero.string_of_int (Z.to_int n)
  | Str s => s
  end.

Definition nat_to_string (n : nat) : string :=
  NilZero.string_of_uint (Nat.to_uint n).

End JS.

(** A call that either delivers a value or throws (a promise that resolves
    or rejects). *)
Inductive result (A : Type) :=
| Return (a : A)
| Throw (e : string).
Arguments Return {A} a.
Arguments Throw {A} e.

(** ** Data model *)

(** [Artist]: only [name] is read, and it may be missing. *)
Record Artist := { artist_name : option string }.

(** [MediaItem]: identifier, content type and the lazily resolved accessors.
    An accessor may be absent ([song.title ? ... : ...]); when present,
    calling it resolves or rejects. [artists()] resolves to an array of
    promises. *)
Record MediaItem := {
  item_id : JS.value;
  item_contentType : string;
  item_title : option (result string);
  item_artist : option (result (option Artist));
  item_artists : option (result (option (list (result (option Artist)))))
}.

(** A playlist of [state.content.playlists]. *)
Record Creator := { creator_id : JS.value }.

Record Playlist := {
  pl_uuid : JS.value;
  pl_title : JS.value;
  pl_numberOfTracks : JS.value;
  pl_type : JS.value;
  pl_creator : option Creator
}.

(** A playlist as [Playlist.getUserPlaylists()] / [getMyPlaylists()] return
    it (typed [any]): both spellings of each property are read. *)
Record ApiPlaylist := {
  api_uuid : JS.value;
  api_id : JS.value;
  api_title : JS.value;
  api_name : JS.value;
  api_numberOfTracks : JS.value;
  api_trackCount : JS.value
}.

(** The part of the redux state that is read.  [content_playlists] lists the
    entries of the playlist object in the order [Object.values] enumerates
    them; a value that is not a playlist object ([null], [undefined]) is
    [None]. *)
Record UserMeta := { meta_id : JS.value }.
Record User := { user_meta : option UserMeta }.
Record Content := { content_playlists : option (list (string * option Playlist)) }.
Record State := { state_content : option Content; state_user : option User }.

(** The payload of [redux.actions["content/ADD_MEDIA_ITEMS_TO_PLAYLIST"]]. *)
Record AddAction := {
  playlistUUID : string;
  mediaItemIdsToAdd : list JS.value;
  addToIndex : Z;
  onDupes : string;
  showNotification_flag : bool
}.

Inductive Severity := success | warning | error.

(** ** The document *)

(** What [innerHTML] of [#playlist-list] holds: one paragraph (style and
    text), or one [<label>] with a checkbox per playlist. *)
Record Row := {
  row_playlist_id : string;   (* data-playlist-id *)
  row_title : string;
  row_tracks : string
}.

Inductive Html :=
| Paragraph (style text : string)
| Labels (rows : list Row).

Record Toast := {
  toast_text : string;
  toast_background : string;
  toast_transform : string
}.

Record Modal := {
  modal_songTitle : string;
  modal_songArtist : string;
  playlist_list : Html
}.

Inductive Node :=
| ToastNode (t : Toast)
| OverlayNode (m : Modal).

(** Callbacks handed to [setTimeout]. *)
Inductive Task :=
| SlideIn (notification : nat)        (* line 344 *)
| SlideOut (notification : nat)       (* line 349 *)
| RemoveToast (notification : nat)    (* line 351 *)
| ContextMenuClick.                   (* line 379 *)

(** Calls into the host, in the order they are made. *)
Inductive Call :=
| AddMediaItemsToPlaylist (a : AddAction)
| ContextMenuClose
| MediaItemFromId (id : JS.value) (contentType : string)
| ButtonShow
| PlaylistGetUserPlaylists
| PlaylistGetMyPlaylists.

(** ** The host interface *)

Record HostApi (Host : Type) := {
  getState : Host -> result State;
  ADD_MEDIA_ITEMS_TO_PLAYLIST : AddAction -> Host -> result unit * Host;
  fromId : JS.value -> string -> Host -> result (option MediaItem) * Host;
  getUserPlaylists : option (Host -> result (list (option ApiPlaylist)) * Host);
  getMyPlaylists : option (Host -> result (list (option ApiPlaylist)) * Host)
}.
Arguments getState {Host}.
Arguments ADD_MEDIA_ITEMS_TO_PLAYLIST {Host}.
Arguments fromId {Host}.
Arguments getUserPlaylists {Host}.
Arguments getMyPlaylists {Host}.

(** ** The world *)

Record World (Host : Type) := {
  host : Host;
  calls : list Call;
  body : list (nat * Node);            (* children of document.body *)
  next_node : nat;                     (* identity of the next created element *)
  timers : list (Z * Task);            (* due time, callback *)
  now : Z;                             (* milliseconds *)
  contextMenuSongId : JS.value;        (* line 371 *)
  contextMenuContentType : string      (* line 372 *)
}.
Arguments host {Host}.
Arguments calls {Host}.
Arguments body {Host}.
Arguments next_node {Host}.
Arguments timers {Host}.
Arguments now {Host}.
Arguments contextMenuSongId {Host}.
Arguments contextMenuContentType {Host}.

(** The double quote character of the result message. *)
Definition dquote : string :=
  String (Ascii false true false false false true false false) EmptyString.

Section Model.

Context {Host : Type} (api : HostApi Host).

Definition set_host (h : Host) (w : World Host) : World Host :=
  {| host := h; calls := calls w; body := body w; next_node := next_node w;
     timers := timers w; now := now w;
     contextMenuSongId := contextMenuSongId w;
     contextMenuContentType := contextMenuContentType w |}.

Definition set_calls (c : list Call) (w : World Host) : World Host :=
  {| host := host w; calls := c; body := body w; next_node := next_node w;
     timers := timers w; now := now w;
     contextMenuSongId := contextMenuSongId w;
     contextMenuContentType := contextMenuContentType w |}.

Definition set_body (b : list (nat * Node)) (w : World Host) : World Host :=
  {| host := host w; calls := calls w; body := b; next_node := next_node w;
     timers := timers w; now := now w;
     contextMenuSongId := contextMenuSongId w;
     contextMenuContentType := contextMenuContentType w |}.

Definition set_next_node (n : nat) (w : World Host) : World Host :=
  {| host := host w; calls := calls w; body := body w; next_node := n;
     timers := timers w; now := now w;
     contextMenuSongId := contextMenuSongId w;
     contextMenuContentType := contextMenuContentType w |}.

Definition set_timers (q : list (Z * Task)) (w : World Host) : World Host :=
  {| host := host w; calls := calls w; body := body w; next_node := next_node w;
     timers := q; now := now w;
     contextMenuSongId := contextMenuSongId w;
     contextMenuContentType := contextMenuContentType w |}.

Definition set_now (t : Z) (w : World Host) : World Host :=
  {| host := host w; calls := calls w; body := body w; next_node := next_node w;
     timers := timers w; now := t;
     contextMenuSongId := contextMenuSongId w;
     contextMenuContentType := contextMenuContentType w |}.

Definition set_contextMenuSongId (v : JS.value) (w : World Host) : World Host :=
  {| host := host w; calls := calls w; body := body w; next_node := next_node w;
     timers := timers w; now := now w;
     contextMenuSongId := v;
     contextMenuContentType := contextMenuContentType w |}.

Definition set_contextMenuContentType (s : string) (w : World Host) : World Host :=
  {| host := host w; calls := calls w; body := body w; next_node := next_node w;
     timers := timers w; now := now w;
     contextMenuSongId := contextMenuSongId w;
     contextMenuContentType := s |}.

(** *** DOM primitives *)

(** [document.createElement]: a fresh element identity. *)
Definition createElement (w : World Host) : nat * World Host :=
  (next_node w, set_next_node (S (next_node w)) w).

(** [document.body.appendChild(el)] *)
Definition appendChild (el : nat) (n : Node) (w : World Host) : World Host :=
  set_body (body w ++ [(el, n)]) w.

(** [el.parentNode] is not null *)
Definition has_parent (el : nat) (w : World Host) : bool :=
  existsb (fun x => Nat.eqb (fst x) el) (body w).

(** [document.body.removeChild(el)] *)
Definition removeChild (el : nat) (w : World Host) : World Host :=
  set_body (filter (fun x => negb (Nat.eqb (fst x) el)) (body w)) w.

(** [notification.style.transform = v] *)
Definition set_transform (el : nat) (v : string) (w : World Host) : World Host :=
  set_body
    (map (fun x =>
            match x with
            | (n, ToastNode t) =>
                if Nat.eqb n el
                then (n, ToastNode {| toast_text := toast_text t;
                                      toast_background := toast_background t;
                                      toast_transform := v |})
                else x
            | _ => x
            end) (body w)) w.

(** [setTimeout(task, delay)] *)
Definition setTimeout (task : Task) (delay : Z) (w : World Host) : World Host :=
  set_timers (timers w ++ [((now w + delay)%Z, task)]) w.

(** [document.querySelector('#playlist-list')]: the container of the first
    modal in document order. *)
Fixpoint find_playlist_list (b : list (nat * Node)) : option nat :=
  match b with
  | [] => None
  | (n, OverlayNode _) :: _ => Some n
  | _ :: b' => find_playlist_list b'
  end.

(** [playlistContainer.innerHTML = html] *)
Definition set_innerHTML (overlay : nat) (html : Html) (w : World Host) : World Host :=
  set_body
    (map (fun x =>
            match x with
            | (n, OverlayNode m) =>
                if Nat.eqb n overlay
                then (n, OverlayNode {| modal_songTitle := modal_songTitle m;
                                        modal_songArtist := modal_songArtist m;
                                        playlist_list := html |})
                else x
            | _ => x
            end) (body w)) w.

(** Record a host call. *)
Definition called (c : Call) (w : World Host) : World Host :=
  set_calls (calls w ++ [c]) w.

(** *** showNotification (lines 320-357) *)

Definition background_of (type : Severity) : string :=
  match type with
  | success => "#4caf50"
  | warning => "#ff9800"
  | error => "#f44336"
  end.

Definition new_toast (message : string) (type : Severity) : Node :=
  ToastNode {| toast_text := message;
               toast_background := background_of type;
               toast_transform := "translateX(300px)" |}.

Definition showNotification (message : string) (type : Severity) (w : World Host) : World Host :=
  let (notification, w) := createElement w in
  let w := appendChild notification (new_toast message type) w in
  let w := setTimeout (SlideIn notification) 50 w in
  setTimeout (SlideOut notification) 3000 w.

(** *** populatePlaylistListFromRedux (lines 188-265) *)

Definition no_playlists_found : Html :=
  Paragraph "opacity: 0.7;" "No playlists found. Create some playlists first!".

Definition unable_to_load : Html :=
  Paragraph "color: #ff6b6b;" "Unable to load your playlists. Please try again.".

Definition error_loading : Html :=
  Paragraph "color: #ff6b6b;" "Error loading playlists".

(** [state.content?.playlists || {}] *)
Definition playlists_of (state : State) : list (string * option Playlist) :=
  match state_content state with
  | Some content =>
      match content_playlists content with
      | Some playlists => playlists
      | None => []
      end
  | None => []
  end.

(** [state.user?.meta?.id] *)
Definition currentUserId_of (state : State) : JS.value :=
  match state_user state with
  | Some user =>
      match user_meta user with
      | Some currentUser => meta_id currentUser
      | None => JS.Undefined
      end
  | None => JS.Undefined
  end.

(** [playlist.creator?.id] *)
Definition playlistCreatorId_of (playlist : Playlist) : JS.value :=
  match pl_creator playlist with
  | Some creator => creator_id creator
  | None => JS.Undefined
  end.

(** The callback of [filter] (lines 208-231). *)
Definition isCurrentUserPlaylist (currentUserId : JS.value) (playlist : option Playlist) : bool :=
  match playlist with
  | None => false
  | Some playlist =>
      if negb (JS.strict_eq (pl_type playlist) (JS.Str "USER")) then false
      else if negb (JS.truthy currentUserId) then false
      else JS.strict_eq (playlistCreatorId_of playlist) currentUserId
  end.

(** [array.map(f)] where [f] may throw. *)
Fixpoint map_or_throw {A B : Type} (f : A -> result B) (l : list A) : result (list B) :=
  match l with
  | [] => Return []
  | x :: l' =>
      match f x with
      | Throw e => Throw e
      | Return y =>
          match map_or_throw f l' with
          | Throw e => Throw e
          | Return ys => Return (y :: ys)
          end
      end
  end.

(** The [<label>] of lines 243-259; reading a property of [null] throws. *)
Definition redux_row (playlist : option Playlist) : result Row :=
  match playlist with
  | None => Throw "TypeError"
  | Some playlist =>
      Return {| row_playlist_id := JS.to_string (pl_uuid playlist);
                row_title := JS.to_string (JS.or (pl_title playlist) (JS.Str "Untitled Playlist"));
                row_tracks := JS.to_string (JS.or (pl_numberOfTracks playlist) (JS.Num 0))
                              ++ " tracks" |}
  end.

(** What the [try] block of lines 192-260 leaves in the container. *)
Definition redux_html (state : State) : Html :=
  let playlists := playlists_of state in
  if (List.length playlists =? 0)%nat then no_playlists_found
  else
    let currentUserId := currentUserId_of state in
    let playlistsArray := filter (isCurrentUserPlaylist currentUserId) (map snd playlists) in
    if (0 <? List.length playlists)%nat && (List.length playlistsArray =? 0)%nat
       && JS.truthy currentUserId
    then unable_to_load
    else
      match map_or_throw redux_row playlistsArray with
      | Return rows => Labels rows
      | Throw _ => error_loading
      end.

Definition populatePlaylistListFromRedux (w : World Host) : World Host :=
  match find_playlist_list (body w) with
  | None => w
  | Some playlistContainer =>
      match getState api (host w) with
      | Return state => set_innerHTML playlistContainer (redux_html state) w
      | Throw _ => set_innerHTML playlistContainer error_loading w
      end
  end.

(** *** populatePlaylistList (lines 129-185) *)

(** The [<label>] of lines 162-180. *)
Definition api_row (playlist : option ApiPlaylist) : result Row :=
  match playlist with
  | None => Throw "TypeError"
  | Some playlist =>
      Return {| row_playlist_id :=
                  JS.to_string (JS.or (api_uuid playlist) (api_id playlist));
                row_title :=
                  JS.to_string (JS.or (JS.or (api_title playlist) (api_name playlist))
                                      (JS.Str "Untitled Playlist"));
                row_tracks :=
                  JS.to_string (JS.or (JS.or (api_numberOfTracks playlist)
                                             (api_trackCount playlist)) (JS.Num 0))
                  ++ " tracks" |}
  end.

(** Lines 156-180, under the outer [try]. *)
Definition api_html (playlistsArray : list (option ApiPlaylist)) : Html :=
  if (List.length playlistsArray =? 0)%nat then no_playlists_found
  else
    match map_or_throw api_row playlistsArray with
    | Return rows => Labels rows
    | Throw _ => error_loading
    end.

Definition populatePlaylistList (w : World Host) : World Host :=
  match find_playlist_list (body w) with
  | None => w
  | Some playlistContainer =>
      match getUserPlaylists api with
      | Some call =>
          let (r, h) := call (host w) in
          let w := called PlaylistGetUserPlaylists (set_host h w) in
          match r with
          | Return playlistsArray =>
              set_innerHTML playlistContainer (api_html playlistsArray) w
          | Throw _ => populatePlaylistListFromRedux w
          end
      | None =>
          match getMyPlaylists api with
          | Some call =>
              let (r, h) := call (host w) in
              let w := called PlaylistGetMyPlaylists (set_host h w) in
              match r with
              | Return playlistsArray =>
                  set_innerHTML playlistContainer (api_html playlistsArray) w
              | Throw _ => populatePlaylistListFromRedux w
              end
          | None => populatePlaylistListFromRedux w
          end
      end
  end.

(** *** showPlaylistSelector (lines 17-126) *)

(** [song.title ? await song.title() : 'Unknown Song'] *)
Definition resolve_songTitle (song : MediaItem) : result string :=
  match item_title song with
  | Some call => call
  | None => Return "Unknown Song"
  end.

(** [if (artist && artist.name) songArtist = artist.name] *)
Definition name_or (artist : option Artist) (songArtist : string) : string :=
  match artist with
  | Some artist =>
      match artist_name artist with
      | Some name => if (name =? EmptyString)%string then songArtist else name
      | None => songArtist
      end
  | None => songArtist
  end.

(** Lines 50-72: the whole lookup is inside [try]; the [catch] resets the
    placeholder. *)
Definition resolve_songArtist (song : MediaItem) : string :=
  let songArtist := "Unknown Artist" in
  match item_artist song with
  | Some call =>
      match call with
      | Return artist => name_or artist songArtist
      | Throw _ => "Unknown Artist"
      end
  | None =>
      match item_artists song with
      | Some call =>
          match call with
          | Return (Some (first :: _)) =>
              match first with
              | Return firstArtist => name_or firstArtist songArtist
              | Throw _ => "Unknown Artist"
              end
          | Return _ => songArtist
          | Throw _ => "Unknown Artist"
          end
      | None => songArtist
      end
  end.

(** The title is awaited at line 49, before the [try] of line 53: when it
    rejects, the function rejects and nothing has been appended.  The click
    listeners of lines 109-125 are registered on the new elements; the
    selection they pass on is an argument of [addToSelectedPlaylists]. *)
Definition showPlaylistSelector (song : MediaItem) (w : World Host)
  : result unit * World Host :=
  let (overlay, w) := createElement w in
  let (_, w) := createElement w in
  match resolve_songTitle song with
  | Throw e => (Throw e, w)
  | Return songTitle =>
      let songArtist := resolve_songArtist song in
      let w := appendChild overlay
                 (OverlayNode {| modal_songTitle := songTitle;
                                 modal_songArtist := songArtist;
                                 playlist_list := Labels [] |}) w in
      (Return tt, populatePlaylistList w)
  end.

(** *** addToSelectedPlaylists (lines 268-317) *)

(** The payload of lines 287-293. *)
Definition add_action (song : MediaItem) (playlistId : string) : AddAction :=
  {| playlistUUID := playlistId;
     mediaItemIdsToAdd := [item_id song];
     addToIndex := (-1)%Z;
     onDupes := "SKIP";
     showNotification_flag := false |}.

(** The [for] loop of lines 284-299 with its two counters. *)
Fixpoint add_loop (song : MediaItem) (ids : list string)
  (successCount errorCount : nat) (w : World Host) : nat * nat * World Host :=
  match ids with
  | [] => (successCount, errorCount, w)
  | playlistId :: ids' =>
      let a := add_action song playlistId in
      let (r, h) := ADD_MEDIA_ITEMS_TO_PLAYLIST api a (host w) in
      let w := called (AddMediaItemsToPlaylist a) (set_host h w) in
      match r with
      | Return _ => add_loop song ids' (S successCount) errorCount w
      | Throw _ => add_loop song ids' successCount (S errorCount) w
      end
  end.

(** The message of lines 303-305. *)
Definition result_message (songTitle : string) (successCount errorCount : nat) : string :=
  if (0 <? successCount)%nat
  then dquote ++ songTitle ++ dquote ++ " added to " ++ JS.nat_to_string successCount
       ++ " playlist" ++ (if (1 <? successCount)%nat then "s" else EmptyString)
       ++ " (" ++ JS.nat_to_string errorCount ++ " failed)"
  else "Failed to add " ++ dquote ++ songTitle ++ dquote ++ " to playlists".

(** [selectedPlaylistIds] is what line 271 reads from the checked boxes. *)
Definition addToSelectedPlaylists (song : MediaItem) (selectedPlaylistIds : list string)
  (w : World Host) : World Host :=
  if (List.length selectedPlaylistIds =? 0)%nat
  then showNotification "Please select at least one playlist" error w
  else
    match resolve_songTitle song with
    | Throw _ => showNotification "Error adding song to playlists" error w
    | Return songTitle =>
        let '(successCount, errorCount, w) := add_loop song selectedPlaylistIds 0 0 w in
        if (0 <? errorCount)%nat
        then showNotification (result_message songTitle successCount errorCount) error w
        else w
    end.

(** *** setupContextMenuIntegration (lines 366-431) *)

(** The click handler of lines 374-397: close the menu, defer the rest. *)
Definition onClick (w : World Host) : World Host :=
  setTimeout ContextMenuClick 100 (called ContextMenuClose w).

(** The deferred callback of lines 379-396. *)
Definition contextMenuClick (w : World Host) : World Host :=
  if JS.truthy (contextMenuSongId w)
  then
    let (r, h) := fromId api (contextMenuSongId w) (contextMenuContentType w) (host w) in
    let w := called (MediaItemFromId (contextMenuSongId w) (contextMenuContentType w))
               (set_host h w) in
    match r with
    | Return (Some mediaItem) =>
        match showPlaylistSelector mediaItem w with
        | (Return _, w) => w
        | (Throw _, w) => showNotification "Error loading song information" error w
        end
    | Return None => showNotification "Could not load song information" error w
    | Throw _ => showNotification "Error loading song information" error w
    end
  else showNotification "No song selected" error w.

(** What the menu-open hook receives: an item of a collection has an [id]
    and a [contentType]; producing it may throw. *)
Record MediaRef := { ref_id : JS.value; ref_contentType : string }.

Inductive MediaCollection :=
| NotAnObject
| WithMediaItems (mediaItems : result (list (result MediaRef)))   (* album, playlist *)
| Iterable (items : result (list (result MediaRef))).             (* iterated directly *)

(** [for await (const mediaItem of ...) { ...; break }] under the [try] of
    line 402: the first item is captured; an error resets the identifier. *)
Definition capture_first (items : result (list (result MediaRef))) (w : World Host)
  : World Host :=
  match items with
  | Return [] => w
  | Return (Return mediaItem :: _) =>
      set_contextMenuContentType (ref_contentType mediaItem)
        (set_contextMenuSongId (ref_id mediaItem) w)
  | Return (Throw _ :: _) => set_contextMenuSongId JS.Null w
  | Throw _ => set_contextMenuSongId JS.Null w
  end.

(** The hook of lines 400-430. *)
Definition onMediaItem (mediaCollection : MediaCollection) (w : World Host) : World Host :=
  let w :=
    match mediaCollection with
    | NotAnObject => w
    | WithMediaItems mediaItems => capture_first mediaItems w
    | Iterable items => capture_first items w
    end in
  called ButtonShow w.

(** *** Timers *)

Definition run_task (task : Task) (w : World Host) : World Host :=
  match task with
  | SlideIn notification => set_transform notification "translateX(0)" w
  | SlideOut notification =>
      setTimeout (RemoveToast notification) 200
        (set_transform notification "translateX(300px)" w)
  | RemoveToast notification =>
      if has_parent notification w then removeChild notification w else w
  | ContextMenuClick => contextMenuClick w
  end.

(** The pending timer that fires next: the least due time, the earlier
    [setTimeout] among equals. *)
Fixpoint extract_earliest (q : list (Z * Task)) : option ((Z * Task) * list (Z * Task)) :=
  match q with
  | [] => None
  | x :: q' =>
      match extract_earliest q' with
      | None => Some (x, [])
      | Some (y, rest) =>
          if (fst x <=? fst y)%Z then Some (x, q') else Some (y, x :: rest)
      end
  end.

(** A bound on the callbacks a pending timer can still cause: [SlideOut]
    schedules one more, the deferred click at most one toast. *)
Definition task_weight (task : Task) : nat :=
  match task with
  | SlideIn _ => 1
  | SlideOut _ => 2
  | RemoveToast _ => 1
  | ContextMenuClick => 4
  end.

Definition queue_weight (q : list (Z * Task)) : nat :=
  list_sum (map (fun x => task_weight (snd x)) q).

(** Fire, in order, the timers that are due by [t]; a callback runs at its
    due time. *)
Fixpoint run_timers (fuel : nat) (t : Z) (w : World Host) : World Host :=
  match fuel with
  | O => w
  | S fuel' =>
      match extract_earliest (timers w) with
      | Some ((due, task), rest) =>
          if (due <=? t)%Z
          then run_timers fuel' t
                 (run_task task (set_now (Z.max (now w) due) (set_timers rest w)))
          else w
      | None => w
      end
  end.

(** Let the clock reach [t]. *)
Definition advance (t : Z) (w : World Host) : World Host :=
  let w := run_timers (queue_weight (timers w)) t w in
  set_now (Z.max (now w) t) w.

(** *** Observations *)

(** The add commands among the host calls. *)
Definition add_commands (c : list Call) : list AddAction :=
  flat_map (fun x => match x with AddMediaItemsToPlaylist a => [a] | _ => [] end) c.

(** The [MediaItem.fromId] calls among the host calls. *)
Definition fromId_calls (c : list Call) : list (JS.value * string) :=
  flat_map (fun x => match x with MediaItemFromId i t => [(i, t)] | _ => [] end) c.

(** The toasts in the document. *)
Definition toasts (b : list (nat * Node)) : list Toast :=
  flat_map (fun x => match snd x with ToastNode t => [t] | _ => [] end) b.

(** [innerHTML] of the container [querySelector] finds. *)
Fixpoint container_html (b : list (nat * Node)) : option Html :=
  match b with
  | [] => None
  | (_, OverlayNode m) :: _ => Some (playlist_list m)
  | _ :: b' => container_html b'
  end.

(** The checkbox rows the user is offered. *)
Definition surfaced (w : World Host) : list Row :=
  match container_html (body w) with
  | Some (Labels rows) => rows
  | _ => []
  end.

(** The outcome the host gives to each command of a batch, in order. *)
Fixpoint add_outcomes (song : MediaItem) (ids : list string) (h : Host) : list (result unit) :=
  match ids with
  | [] => []
  | playlistId :: ids' =>
      let (r, h') := ADD_MEDIA_ITEMS_TO_PLAYLIST api (add_action song playlistId) h in
      r :: add_outcomes song ids' h'
  end.

Definition succeeded (r : result unit) : bool :=
  match r with Return _ => true | Throw _ => false end.

(** *** The listeners of the modal (lines 109-125)

    [overlay] is the element [showPlaylistSelector] created; the checked
    boxes are read when the Add button is clicked. *)

(** Line 112: the Cancel button. *)
Definition cancel_click (overlay : nat) (w : World Host) : World Host :=
  removeChild overlay w.

(** Lines 116-119: the Add button. *)
Definition add_click (song : MediaItem) (overlay : nat) (selectedPlaylistIds : list string)
  (w : World Host) : World Host :=
  removeChild overlay (addToSelectedPlaylists song selectedPlaylistIds w).

(** Lines 121-125: a click that reaches the overlay; only a click on the
    overlay itself ([e.target === overlay]) dismisses. *)
Definition overlay_click (target_is_overlay : bool) (overlay : nat) (w : World Host)
  : World Host :=
  if target_is_overlay then removeChild overlay w else w.

(** The query method lines 139-145 pick, with the call it logs. *)
Definition playlist_query
  : option (Call * (Host -> result (list (option ApiPlaylist)) * Host)) :=
  match getUserPlaylists api with
  | Some call => Some (PlaylistGetUserPlaylists, call)
  | None =>
      match getMyPlaylists api with
      | Some call => Some (PlaylistGetMyPlaylists, call)
      | None => None
      end
  end.

(** What lines 133-184 write into the container they find, on a host in
    state [h]: the rendering of the array the chosen query method delivers,
    or, without a method or when it throws, what the redux fallback
    renders. *)
Definition listing_html (h : Host) : Html :=
  match playlist_query with
  | Some (_, call) =>
      match call h with
      | (Return playlistsArray, _) => api_html playlistsArray
      | (Throw _, h') =>
          match getState api h' with
          | Return state => redux_html state
          | Throw _ => error_loading
          end
      end
  | None =>
      match getState api h with
      | Return state => redux_html state
      | Throw _ => error_loading
      end
  end.

(** *** More observations *)

(** The element with identity [n] in the document. *)
Fixpoint node_at (n : nat) (b : list (nat * Node)) : option Node :=
  match b with
  | [] => None
  | (m, node) :: b' => if Nat.eqb m n then Some node else node_at n b'
  end.

(** The modals in the document. *)
Definition overlays (b : list (nat * Node)) : list nat :=
  flat_map (fun x => match snd x with OverlayNode _ => [fst x] | _ => [] end) b.

(** The element a timer callback acts on. *)
Definition task_target (task : Task) : option nat :=
  match task with
  | SlideIn n | SlideOut n | RemoveToast n => Some n
  | ContextMenuClick => None
  end.

Definition targets (n : nat) (x : Z * Task) : bool :=
  match task_target (snd x) with
  | Some m => Nat.eqb m n
  | None => false
  end.

(** The toast [showNotification message type] creates, with its current
    [transform]. *)
Definition toast_node (message : string) (type : Severity) (transform : string) : Node :=
  ToastNode {| toast_text := message;
               toast_background := background_of type;
               toast_transform := transform |}.

(** The pending timers that act on the element [n]. *)
Definition pending (n : nat) (q : list (Z * Task)) : list (Z * Task) :=
  filter (targets n) q.

(** Where the toast [n], created at time [t0], stands while the clock is
    brought to [t]: waiting to slide in, shown, sliding out, or past its
    removal time. *)
Definition toast_phase (n : nat) (message : string) (type : Severity) (t0 t : Z)
  (w : World Host) : Prop :=
  n < next_node w
  /\ ((Permutation (pending n (timers w))
         [((t0 + 50)%Z, SlideIn n); ((t0 + 3000)%Z, SlideOut n)]
       /\ node_at n (body w) = Some (toast_node message type "translateX(300px)")
       /\ (now w <= t0 + 3000)%Z)
      \/ (pending n (timers w) = [((t0 + 3000)%Z, SlideOut n)]
          /\ node_at n (body w) = Some (toast_node message type "translateX(0)")
          /\ (now w <= t0 + 3000)%Z
          /\ (t0 + 50 <= t)%Z)
      \/ (pending n (timers w) = [((t0 + 3200)%Z, RemoveToast n)]
          /\ node_at n (body w) = Some (toast_node message type "translateX(300px)")
          /\ (t0 + 3000 <= t)%Z)
      \/ (t0 + 3200 <= t)%Z).

(** The two tallies of a batch. *)
Definition count_succeeded (outcomes : list (result unit)) : nat :=
  List.length (filter succeeded outcomes).

Definition count_failed (outcomes : list (result unit)) : nat :=
  List.length (filter (fun r => negb (succeeded r)) outcomes).

(** *** Invariants of the event loop

    [frame k w w']: going from [w] to [w'] keeps the captured identity and
    the clock, only appends timers (of total weight at most [k]), and only
    adds elements created after [w]. *)
Definition frame (k : nat) (w w' : World Host) : Prop :=
  contextMenuSongId w' = contextMenuSongId w
  /\ contextMenuContentType w' = contextMenuContentType w
  /\ now w' = now w
  /\ next_node w <= next_node w'
  /\ (forall n, In n (map fst (body w')) -> In n (map fst (body w)) \/ next_node w <= n)
  /\ exists added, timers w' = (timers w ++ added)%list /\ queue_weight added <= k.

(** The element [n] is on its way out by the deadline [T]: it is gone, or
    its removal is pending with a due time within [T], or its slide-out is
    pending early enough, and the clock has not passed that due time. *)
Definition removal_pending (n : nat) (T : Z) (w : World Host) : Prop :=
  n < next_node w
  /\ (~ In n (map fst (body w))
      \/ (exists d, In (d, RemoveToast n) (timers w) /\ (d <= T)%Z)
      \/ (exists d, In (d, SlideOut n) (timers w) /\ (d + 200 <= T)%Z /\ (now w <= d)%Z)).

End Model.

(** ** Concrete inputs *)

Definition ex_song : MediaItem :=
  {| item_id := JS.Str "s1";
     item_contentType := "track";
     item_title := Some (Return "Blue");
     item_artist := Some (Return (Some {| artist_name := Some "Joni" |}));
     item_artists := None |}.

(** A song whose [title()] rejects. *)
Definition ex_song_title_rejects : MediaItem :=
  {| item_id := JS.Str "s1";
     item_contentType := "track";
     item_title := Some (Throw "title unavailable");
     item_artist := Some (Return (Some {| artist_name := Some "Joni" |}));
     item_artists := None |}.

(** A song whose [artist()] rejects. *)
Definition ex_song_artist_rejects : MediaItem :=
  {| item_id := JS.Str "s1";
     item_contentType := "track";
     item_title := None;
     item_artist := Some (Throw "artist unavailable");
     item_artists := None |}.

Definition ex_playlist (uuid type : string) (creator : Z) : Playlist :=
  {| pl_uuid := JS.Str uuid;
     pl_title := JS.Str uuid;
     pl_numberOfTracks := JS.Num 3;
     pl_type := JS.Str type;
     pl_creator := Some {| creator_id := JS.Num creator |} |}.

(** Three playlists: one of user 7, one of user 8, one editorial. *)
Definition ex_state (user : option User) : State :=
  {| state_content :=
       Some {| content_playlists :=
                 Some [("p1", Some (ex_playlist "p1" "USER" 7));
                       ("p2", Some (ex_playlist "p2" "USER" 8));
                       ("p3", Some (ex_playlist "p3" "EDITORIAL" 7))] |};
     state_user := user |}.

Definition ex_user (id : Z) : option User :=
  Some {| user_meta := Some {| meta_id := JS.Num id |} |}.

(** A host without the playlist query methods, whose add command throws for
    playlist [B] and whose [MediaItem.fromId] resolves to [song]. *)
Definition ex_api (state : State) (song : MediaItem) : HostApi unit :=
  {| getState := fun _ => Return state;
     ADD_MEDIA_ITEMS_TO_PLAYLIST := fun a h =>
       if (playlistUUID a =? "B")%string then (Throw "add failed", h) else (Return tt, h);
     fromId := fun _ _ h => (Return (Some song), h);
     getUserPlaylists := None;
     getMyPlaylists := None |}.

Definition ex_world (songId : JS.value) (b : list (nat * Node)) (n : nat) : World unit :=
  {| host := tt; calls := []; body := b; next_node := n; timers := []; now := 0%Z;
     contextMenuSongId := songId; contextMenuContentType := "track" |}.

Definition ex_modal : Node :=
  OverlayNode {| modal_songTitle := "Blue"; modal_songArtist := "Joni";
                 playlist_list := Labels [] |}.

(** A playlist as a query method returns it, spelled with [id], [name] and
    [trackCount]. *)
Definition ex_api_playlist (id : string) : ApiPlaylist :=
  {| api_uuid := JS.Undefined;
     api_id := JS.Str id;
     api_title := JS.Undefined;
     api_name := JS.Str id;
     api_numberOfTracks := JS.Undefined;
     api_trackCount := JS.Num 5 |}.

(** A host that has [Playlist.getUserPlaylists], with the given answer. *)
Definition ex_api_with_query (answer : result (list (option ApiPlaylist))) : HostApi unit :=
  {| getState := fun _ => Return (ex_state (ex_user 7));
     ADD_MEDIA_ITEMS_TO_PLAYLIST := fun a h =>
       if (playlistUUID a =? "B")%string then (Throw "add failed", h) else (Return tt, h);
     fromId := fun _ _ h => (Return (Some ex_song), h);
     getUserPlaylists := Some (fun h => (answer, h));
     getMyPlaylists := None |}.

(** A host whose [MediaItem.fromId] resolves to nothing. *)
Definition ex_api_unresolved : HostApi unit :=
  {| getState := fun _ => Return (ex_state (ex_user 7));
     ADD_MEDIA_ITEMS_TO_PLAYLIST := fun _ h => (Return tt, h);
     fromId := fun _ _ h => (Return None, h);
     getUserPlaylists := None;
     getMyPlaylists := None |}.

(** The first item of a collection the menu opens on. *)
Definition ex_ref : MediaRef := {| ref_id := JS.Str "s1"; ref_contentType := "track" |}.

(** * Properties *)

Section Properties.

Context {Host : Type} (api : HostApi Host).

Local Open Scope list_scope.

(** ** JavaScript values *)

Lemma strict_eq_true (a b : JS.value) : JS.strict_eq a b = true <-> a = b.
Proof.
  destruct a, b; simpl; split; intro H; try discriminate; try reflexivity.
  - apply Z.eqb_eq in H. now subst.
  - injection H as ->. apply Z.eqb_refl.
  - apply String.eqb_eq in H. now subst.
  - injection H as ->. apply String.eqb_refl.
Qed.

(** ** The ownership filter *)

Lemma isCurrentUserPlaylist_sound (currentUserId : JS.value) (playlist : option Playlist) :
  isCurrentUserPlaylist currentUserId playlist = true ->
  exists p,
    playlist = Some p /\
    pl_type p = JS.Str "USER" /\
    JS.truthy currentUserId = true /\
    playlistCreatorId_of p = currentUserId.
Proof.
  destruct playlist as [p|]; simpl; [|discriminate].
  destruct (JS.strict_eq (pl_type p) (JS.Str "USER")) eqn:Htype; simpl; [|discriminate].
  destruct (JS.truthy currentUserId) eqn:Hid; simpl; [|discriminate].
  intro Hown. exists p. repeat split.
  - now apply strict_eq_true.
  - now apply strict_eq_true.
Qed.

Lemma isCurrentUserPlaylist_unknown_user (currentUserId : JS.value) (playlist : option Playlist) :
  JS.truthy currentUserId = false ->
  isCurrentUserPlaylist currentUserId playlist = false.
Proof.
  intro Hid. destruct playlist as [p|]; simpl; [|reflexivity].
  rewrite Hid. now destruct (JS.strict_eq (pl_type p) (JS.Str "USER")).
Qed.

Lemma filter_unknown_user (currentUserId : JS.value) (l : list (option Playlist)) :
  JS.truthy currentUserId = false ->
  filter (isCurrentUserPlaylist currentUserId) l = [].
Proof.
  intro Hid. induction l as [|p l IH]; simpl; [reflexivity|].
  now rewrite isCurrentUserPlaylist_unknown_user.
Qed.

Lemma filter_none {A : Type} (f : A -> bool) (l : list A) :
  (forall x, In x l -> f x = false) -> filter f l = [].
Proof.
  induction l as [|x l IH]; simpl; intro H; [reflexivity|].
  rewrite (H x) by auto. apply IH. intros y Hy. apply H. auto.
Qed.

Lemma map_or_throw_In {A B : Type} (f : A -> result B) (l : list A) (ys : list B) :
  map_or_throw f l = Return ys ->
  forall y, In y ys -> exists x, In x l /\ f x = Return y.
Proof.
  revert ys. induction l as [|x l IH]; simpl; intros ys H y Hy.
  - injection H as <-. destruct Hy.
  - destruct (f x) as [y0|] eqn:Hx; [|discriminate].
    destruct (map_or_throw f l) as [ys0|]; [|discriminate].
    injection H as <-. destruct Hy as [<-|Hy].
    + exists x. auto.
    + destruct (IH ys0 eq_refl y Hy) as (x' & Hin & Hf). exists x'. auto.
Qed.

(** Every row of the fallback list comes from a playlist of the snapshot
    that passed the filter. *)
Lemma redux_html_rows (state : State) (rows : list Row) :
  redux_html state = Labels rows ->
  forall row, In row rows ->
    exists playlist,
      In (Some playlist) (map snd (playlists_of state)) /\
      pl_type playlist = JS.Str "USER" /\
      JS.truthy (currentUserId_of state) = true /\
      playlistCreatorId_of playlist = currentUserId_of state /\
      redux_row (Some playlist) = Return row.
Proof.
  unfold redux_html.
  destruct (List.length (playlists_of state) =? 0)%nat; [discriminate|].
  match goal with |- context [if ?c then _ else _] => destruct c end; [discriminate|].
  destruct (map_or_throw redux_row _) as [rs|] eqn:Hmap; [|discriminate].
  intros Heq row Hrow. injection Heq as <-.
  destruct (map_or_throw_In _ _ _ Hmap row Hrow) as (x & Hx & Hr).
  apply filter_In in Hx as [Hin Hown].
  destruct (isCurrentUserPlaylist_sound _ _ Hown) as (p & -> & Ht & Hu & Hc).
  exists p. auto.
Qed.

Lemma redux_html_unknown_user (state : State) :
  JS.truthy (currentUserId_of state) = false ->
  redux_html state = no_playlists_found \/ redux_html state = Labels [].
Proof.
  intro Hid. unfold redux_html.
  destruct (List.length (playlists_of state) =? 0)%nat; [now left|].
  rewrite filter_unknown_user by assumption. rewrite Hid. simpl.
  rewrite Bool.andb_false_r. now right.
Qed.

(** ** The container *)

Lemma container_html_none (b : list (nat * Node)) :
  find_playlist_list b = None -> container_html b = None.
Proof.
  induction b as [|[n [t|m]] b IH]; simpl; intro H; auto. discriminate.
Qed.

Lemma container_html_written (b : list (nat * Node)) (c : nat) (html : Html) :
  find_playlist_list b = Some c ->
  container_html
    (map (fun x =>
            match x with
            | (n, OverlayNode m) =>
                if Nat.eqb n c
                then (n, OverlayNode {| modal_songTitle := modal_songTitle m;
                                        modal_songArtist := modal_songArtist m;
                                        playlist_list := html |})
                else x
            | _ => x
            end) b) = Some html.
Proof.
  induction b as [|[n [t|m]] b IH]; simpl; intro H.
  - discriminate.
  - auto.
  - injection H as ->. now rewrite Nat.eqb_refl.
Qed.

Lemma container_html_set_innerHTML (w : World Host) (c : nat) (html : Html) :
  find_playlist_list (body w) = Some c ->
  container_html (body (set_innerHTML c html w)) = Some html.
Proof. intro H. simpl. now apply container_html_written. Qed.

(** What the fallback leaves in the container it finds. *)
Lemma populatePlaylistListFromRedux_html (w : World Host) (c : nat) :
  find_playlist_list (body w) = Some c ->
  container_html (body (populatePlaylistListFromRedux api w)) =
  Some match getState api (host w) with
       | Return state => redux_html state
       | Throw _ => error_loading
       end.
Proof.
  intro H. unfold populatePlaylistListFromRedux. rewrite H.
  destruct (getState api (host w)); now apply container_html_set_innerHTML.
Qed.

(** C1. The rows the redux fallback offers all come from playlists of the
    snapshot whose type is 'USER' and whose creator id is the current user's
    id; when the current user's id is missing (undefined, null, 0 or the
    empty string) no row is offered, whatever the snapshot holds. *)
Theorem C1_redux_fallback_only_own_playlists (w : World Host) :
  (forall row, In row (surfaced (populatePlaylistListFromRedux api w)) ->
     exists state playlist,
       getState api (host w) = Return state /\
       In (Some playlist) (map snd (playlists_of state)) /\
       pl_type playlist = JS.Str "USER" /\
       JS.truthy (currentUserId_of state) = true /\
       playlistCreatorId_of playlist = currentUserId_of state /\
       redux_row (Some playlist) = Return row)
  /\
  (forall state,
     getState api (host w) = Return state ->
     JS.truthy (currentUserId_of state) = false ->
     surfaced (populatePlaylistListFromRedux api w) = []).
Proof.
  unfold surfaced.
  destruct (find_playlist_list (body w)) as [c|] eqn:Hc.
  - rewrite (populatePlaylistListFromRedux_html w c Hc).
    destruct (getState api (host w)) as [state|e]; split.
    + intros row Hrow.
      destruct (redux_html state) as [s t|rows] eqn:Hhtml; [destruct Hrow|].
      destruct (redux_html_rows state rows Hhtml row Hrow) as (p & Hp).
      exists state, p. auto.
    + intros st Hst Hid. injection Hst as <-.
      destruct (redux_html_unknown_user state Hid) as [-> | ->]; reflexivity.
    + intros row Hrow. destruct Hrow.
    + intros st Hst. discriminate.
  - unfold populatePlaylistListFromRedux. rewrite Hc.
    rewrite (container_html_none _ Hc). split.
    + intros row Hrow. destruct Hrow.
    + reflexivity.
Qed.

(** C10. With a non-empty snapshot, a known current user and no playlist
    passing the ownership filter, the container shows 'Unable to load your
    playlists. Please try again.', which is not the 'No playlists found'
    message of the empty snapshot. *)
Theorem C10_no_match_renders_unable_to_load (w : World Host) (c : nat) (state : State) :
  find_playlist_list (body w) = Some c ->
  getState api (host w) = Return state ->
  playlists_of state <> [] ->
  JS.truthy (currentUserId_of state) = true ->
  (forall playlist, In playlist (map snd (playlists_of state)) ->
     isCurrentUserPlaylist (currentUserId_of state) playlist = false) ->
  container_html (body (populatePlaylistListFromRedux api w)) =
    Some (Paragraph "color: #ff6b6b;" "Unable to load your playlists. Please try again.")
  /\ Paragraph "color: #ff6b6b;" "Unable to load your playlists. Please try again."
     <> Paragraph "opacity: 0.7;" "No playlists found. Create some playlists first!".
Proof.
  intros Hc Hst Hne Hid Hnone. split; [|discriminate].
  rewrite (populatePlaylistListFromRedux_html w c Hc), Hst.
  unfold redux_html.
  destruct (playlists_of state) as [|x l] eqn:Hp; [congruence|].
  change (List.length (x :: l) =? 0)%nat with false.
  change (0 <? List.length (x :: l))%nat with true.
  cbv iota.
  replace (filter (isCurrentUserPlaylist (currentUserId_of state)) (map snd (x :: l)))
    with (@nil (option Playlist)).
  - rewrite Hid. reflexivity.
  - symmetry. now apply filter_none.
Qed.

(** ** showNotification *)

Lemma showNotification_effect (message : string) (type : Severity) (w : World Host) :
  showNotification message type w =
  {| host := host w;
     calls := calls w;
     body := body w ++ [(next_node w, new_toast message type)];
     next_node := S (next_node w);
     timers := (timers w ++ [((now w + 50)%Z, SlideIn (next_node w))])
               ++ [((now w + 3000)%Z, SlideOut (next_node w))];
     now := now w;
     contextMenuSongId := contextMenuSongId w;
     contextMenuContentType := contextMenuContentType w |}.
Proof. reflexivity. Qed.

Lemma toasts_app (b1 b2 : list (nat * Node)) :
  toasts (b1 ++ b2) = toasts b1 ++ toasts b2.
Proof. unfold toasts. apply flat_map_app. Qed.

Lemma add_commands_app (c1 c2 : list Call) :
  add_commands (c1 ++ c2) = add_commands c1 ++ add_commands c2.
Proof. unfold add_commands. apply flat_map_app. Qed.

Lemma add_commands_adds (song : MediaItem) (ids : list string) :
  add_commands (map (fun p => AddMediaItemsToPlaylist (add_action song p)) ids)
  = map (add_action song) ids.
Proof. induction ids as [|p ids IH]; simpl; [reflexivity|]. now rewrite <- IH. Qed.

(** ** The batch loop *)

Lemma count_total (outcomes : list (result unit)) :
  count_succeeded outcomes + count_failed outcomes = List.length outcomes.
Proof.
  unfold count_succeeded, count_failed.
  induction outcomes as [|[u|e] l IH]; simpl; lia.
Qed.

Lemma add_outcomes_length (song : MediaItem) (ids : list string) (h : Host) :
  List.length (add_outcomes api song ids h) = List.length ids.
Proof.
  revert h. induction ids as [|p ids IH]; intro h; simpl; [reflexivity|].
  destruct (ADD_MEDIA_ITEMS_TO_PLAYLIST api (add_action song p) h) as [r h'].
  simpl. now rewrite IH.
Qed.

Lemma count_failed_zero (outcomes : list (result unit)) :
  (forall r, In r outcomes -> succeeded r = true) -> count_failed outcomes = 0.
Proof.
  intro H. unfold count_failed. rewrite filter_none; [reflexivity|].
  intros r Hr. now rewrite (H r Hr).
Qed.

(** The loop issues one command per selected identifier, in order, whatever
    the outcomes, counts each outcome, and touches nothing but the host and
    the call log. *)
Lemma add_loop_spec (song : MediaItem) (ids : list string) :
  forall (successCount errorCount : nat) (w : World Host),
  exists w',
    add_loop api song ids successCount errorCount w =
      (successCount + count_succeeded (add_outcomes api song ids (host w)),
       errorCount + count_failed (add_outcomes api song ids (host w)), w')
    /\ calls w' = calls w ++ map (fun p => AddMediaItemsToPlaylist (add_action song p)) ids
    /\ body w' = body w
    /\ next_node w' = next_node w
    /\ timers w' = timers w
    /\ now w' = now w
    /\ contextMenuSongId w' = contextMenuSongId w
    /\ contextMenuContentType w' = contextMenuContentType w.
Proof.
  induction ids as [|p ids IH]; intros s e w; simpl.
  - exists w. unfold count_succeeded, count_failed. simpl.
    rewrite !Nat.add_0_r, app_nil_r. repeat split; reflexivity.
  - destruct (ADD_MEDIA_ITEMS_TO_PLAYLIST api (add_action song p) (host w)) as [r h'] eqn:Hadd.
    set (w1 := called (AddMediaItemsToPlaylist (add_action song p)) (set_host h' w)).
    destruct r as [u|err].
    + destruct (IH (S s) e w1) as (w' & Heq & Hc & Hrest).
      exists w'. rewrite Heq. split.
      * unfold count_succeeded, count_failed. simpl.
        apply f_equal2; [apply f_equal2|]; try reflexivity; lia.
      * split; [|exact Hrest]. rewrite Hc. simpl. now rewrite <- app_assoc.
    + destruct (IH s (S e) w1) as (w' & Heq & Hc & Hrest).
      exists w'. rewrite Heq. split.
      * unfold count_succeeded, count_failed. simpl.
        apply f_equal2; [apply f_equal2|]; try reflexivity; lia.
      * split; [|exact Hrest]. rewrite Hc. simpl. now rewrite <- app_assoc.
Qed.

(** The whole operation when the selection is not empty and the title
    lookup delivers [songTitle]. *)
Lemma addToSelectedPlaylists_batch (song : MediaItem) (ids : list string)
  (songTitle : string) (w : World Host) :
  ids <> [] ->
  resolve_songTitle song = Return songTitle ->
  exists w1,
    add_loop api song ids 0 0 w =
      (count_succeeded (add_outcomes api song ids (host w)),
       count_failed (add_outcomes api song ids (host w)), w1)
    /\ calls w1 = calls w ++ map (fun p => AddMediaItemsToPlaylist (add_action song p)) ids
    /\ body w1 = body w
    /\ next_node w1 = next_node w
    /\ timers w1 = timers w
    /\ addToSelectedPlaylists api song ids w =
       if (0 <? count_failed (add_outcomes api song ids (host w)))%nat
       then showNotification
              (result_message songTitle
                 (count_succeeded (add_outcomes api song ids (host w)))
                 (count_failed (add_outcomes api song ids (host w)))) error w1
       else w1.
Proof.
  intros Hne Htitle.
  destruct (add_loop_spec song ids 0 0 w) as (w1 & Heq & Hc & Hb & Hn & Ht & _).
  exists w1. simpl in Heq. repeat split; try assumption.
  unfold addToSelectedPlaylists.
  destruct ids as [|p ids]; [congruence|].
  change (List.length (p :: ids) =? 0)%nat with false. cbv iota.
  rewrite Htitle, Heq. reflexivity.
Qed.


Lemma addToSelectedPlaylists_calls (song : MediaItem) (ids : list string)
  (songTitle : string) (w : World Host) :
  ids <> [] ->
  resolve_songTitle song = Return songTitle ->
  calls (addToSelectedPlaylists api song ids w) =
  calls w ++ map (fun p => AddMediaItemsToPlaylist (add_action song p)) ids.
Proof.
  intros Hne Htitle.
  destruct (addToSelectedPlaylists_batch song ids songTitle w Hne Htitle)
    as (w1 & _ & Hc & _ & _ & _ & ->).
  now destruct (0 <? _)%nat.
Qed.

Lemma addToSelectedPlaylists_toasts (song : MediaItem) (ids : list string)
  (songTitle : string) (w : World Host) :
  ids <> [] ->
  resolve_songTitle song = Return songTitle ->
  toasts (body (addToSelectedPlaylists api song ids w)) =
  toasts (body w) ++
  (if (0 <? count_failed (add_outcomes api song ids (host w)))%nat
   then [{| toast_text :=
              result_message songTitle
                (count_succeeded (add_outcomes api song ids (host w)))
                (count_failed (add_outcomes api song ids (host w)));
            toast_background := "#f44336";
            toast_transform := "translateX(300px)" |}]
   else []).
Proof.
  intros Hne Htitle.
  destruct (addToSelectedPlaylists_batch song ids songTitle w Hne Htitle)
    as (w1 & _ & _ & Hb & _ & _ & ->).
  destruct (0 <? _)%nat.
  - rewrite showNotification_effect. simpl. now rewrite toasts_app, Hb.
  - now rewrite Hb, app_nil_r.
Qed.

Lemma one_command_per_id (song : MediaItem) (ids : list string) (p : string) :
  NoDup ids -> In p ids ->
  List.length (filter (fun a => (playlistUUID a =? p)%string) (map (add_action song) ids)) = 1.
Proof.
  induction 1 as [|q ids Hq Hnd IH]; intro Hin; [destruct Hin|].
  simpl. destruct (String.eqb_spec q p) as [->|Hqp].
  - simpl. f_equal. rewrite filter_none; [reflexivity|].
    intros a Ha. apply in_map_iff in Ha as (x & <- & Hx). simpl.
    apply String.eqb_neq. intros ->. contradiction.
  - destruct Hin as [->|Hin]; [congruence|]. now apply IH.
Qed.

(** X25. When the selection is not empty and the title lookup delivers a
    title, the add commands are issued in selection order, one per selected
    identifier whatever the outcome of the earlier ones; the two counters
    hold the numbers of commands that returned and that threw; one error
    toast built from both counters is shown exactly when a command threw.
    For [A; B; C] with only B throwing: tally 2 and 1, commands A, B, C in
    that order, and the one toast reads '... added to 2 playlists (1
    failed)'. *)
Theorem batch_tolerates_partial_failure (song : MediaItem) (ids : list string)
  (songTitle : string) (w : World Host) :
  ids <> [] ->
  resolve_songTitle song = Return songTitle ->
  let outcomes := add_outcomes api song ids (host w) in
  let w' := addToSelectedPlaylists api song ids w in
  add_commands (calls w') = add_commands (calls w) ++ map (add_action song) ids
  /\ fst (add_loop api song ids 0 0 w) = (count_succeeded outcomes, count_failed outcomes)
  /\ count_succeeded outcomes + count_failed outcomes = List.length ids
  /\ toasts (body w') =
       toasts (body w) ++
       (if (0 <? count_failed outcomes)%nat
        then [{| toast_text :=
                   result_message songTitle (count_succeeded outcomes) (count_failed outcomes);
                 toast_background := "#f44336";
                 toast_transform := "translateX(300px)" |}]
        else [])
  /\ (forall A B C e,
        ids = [A; B; C] ->
        outcomes = [Return tt; Throw e; Return tt] ->
        fst (add_loop api song ids 0 0 w) = (2, 1)
        /\ add_commands (calls w') =
             add_commands (calls w) ++ [add_action song A; add_action song B; add_action song C]
        /\ toasts (body w') =
             toasts (body w) ++
             [{| toast_text :=
                   (dquote ++ songTitle ++ dquote ++ " added to 2 playlists (1 failed)")%string;
                 toast_background := "#f44336";
                 toast_transform := "translateX(300px)" |}]).
Proof.
  intros Hne Htitle outcomes w'.
  assert (Hcmd : add_commands (calls w') =
                 add_commands (calls w) ++ map (add_action song) ids).
  { unfold w'. rewrite (addToSelectedPlaylists_calls song ids songTitle w Hne Htitle).
    now rewrite add_commands_app, add_commands_adds. }
  assert (Htally : fst (add_loop api song ids 0 0 w) =
                   (count_succeeded outcomes, count_failed outcomes)).
  { destruct (add_loop_spec song ids 0 0 w) as (w1 & -> & _). reflexivity. }
  assert (Htoast := addToSelectedPlaylists_toasts song ids songTitle w Hne Htitle).
  fold outcomes w' in Htoast.
  split; [exact Hcmd|]. split; [exact Htally|]. split; [|split; [exact Htoast|]].
  - unfold outcomes. now rewrite count_total, add_outcomes_length.
  - intros A B C e Hids Hout. repeat split.
    + rewrite Htally, Hout. reflexivity.
    + rewrite Hcmd, Hids. reflexivity.
    + rewrite Htoast, Hout. reflexivity.
Qed.

(** X26. When the selection is not empty, the title lookup delivers a title
    and every add command returns, the document is left as it was: no toast
    is created and no timer is set. *)
Theorem batch_success_is_silent (song : MediaItem) (ids : list string)
  (songTitle : string) (w : World Host) :
  ids <> [] ->
  resolve_songTitle song = Return songTitle ->
  (forall r, In r (add_outcomes api song ids (host w)) -> succeeded r = true) ->
  body (addToSelectedPlaylists api song ids w) = body w
  /\ toasts (body (addToSelectedPlaylists api song ids w)) = toasts (body w)
  /\ timers (addToSelectedPlaylists api song ids w) = timers w.
Proof.
  intros Hne Htitle Hok.
  destruct (addToSelectedPlaylists_batch song ids songTitle w Hne Htitle)
    as (w1 & _ & _ & Hb & _ & Ht & ->).
  rewrite (count_failed_zero _ Hok). simpl. rewrite Hb, Ht. auto.
Qed.

(** X27. When the selection is not empty and the title lookup delivers a
    title, the host calls made are exactly one add command per entry of the
    selection, in order, each carrying that playlist id, the one song id,
    index -1, 'SKIP' and showNotification false; an identifier selected
    once gets exactly one command. *)
Theorem batch_one_command_per_selected_playlist (song : MediaItem) (ids : list string)
  (songTitle : string) (w : World Host) :
  ids <> [] ->
  resolve_songTitle song = Return songTitle ->
  exists issued : list AddAction,
    calls (addToSelectedPlaylists api song ids w) =
      calls w ++ map AddMediaItemsToPlaylist issued
    /\ issued =
       map (fun playlistId =>
              {| playlistUUID := playlistId;
                 mediaItemIdsToAdd := [item_id song];
                 addToIndex := (-1)%Z;
                 onDupes := "SKIP";
                 showNotification_flag := false |}) ids
    /\ (NoDup ids ->
        forall playlistId, In playlistId ids ->
          List.length (filter (fun a => (playlistUUID a =? playlistId)%string) issued) = 1).
Proof.
  intros Hne Htitle. exists (map (add_action song) ids). repeat split.
  - rewrite (addToSelectedPlaylists_calls song ids songTitle w Hne Htitle).
    now rewrite map_map.
  - intros Hnd p Hp. now apply one_command_per_id.
Qed.

(** ** What a step leaves alone *)

Lemma queue_weight_app (q1 q2 : list (Z * Task)) :
  queue_weight (q1 ++ q2) = queue_weight q1 + queue_weight q2.
Proof. unfold queue_weight. now rewrite map_app, list_sum_app. Qed.

Lemma frame_refl (w : World Host) : frame 0 w w.
Proof.
  repeat split; auto. exists []. now rewrite app_nil_r.
Qed.

Lemma frame_trans (k1 k2 : nat) (w w1 w2 : World Host) :
  frame k1 w w1 -> frame k2 w1 w2 -> frame (k1 + k2) w w2.
Proof.
  intros (Hs1 & Hc1 & Ht1 & Hn1 & Hb1 & a1 & Hq1 & Hk1)
         (Hs2 & Hc2 & Ht2 & Hn2 & Hb2 & a2 & Hq2 & Hk2).
  repeat split; try congruence.
  - lia.
  - intros n Hn. destruct (Hb2 n Hn) as [H|H].
    + apply Hb1 in H. tauto.
    + right. lia.
  - exists (a1 ++ a2). split.
    + now rewrite Hq2, Hq1, app_assoc.
    + rewrite queue_weight_app. lia.
Qed.

Lemma frame_weaken (k k' : nat) (w w' : World Host) :
  k <= k' -> frame k w w' -> frame k' w w'.
Proof.
  intros Hk (Hs & Hc & Ht & Hn & Hb & a & Hq & Ha).
  repeat split; auto. exists a. split; [assumption|lia].
Qed.

(** A step that differs from [w] only in the host, the call log and the
    contents (not the identities) of the body. *)
Lemma frame_same_nodes (w w' : World Host) :
  contextMenuSongId w' = contextMenuSongId w ->
  contextMenuContentType w' = contextMenuContentType w ->
  now w' = now w ->
  next_node w' = next_node w ->
  timers w' = timers w ->
  map fst (body w') = map fst (body w) ->
  frame 0 w w'.
Proof.
  intros Hs Hc Ht Hn Hq Hb. repeat split; auto.
  - lia.
  - intros n H. left. now rewrite <- Hb.
  - exists []. now rewrite app_nil_r.
Qed.

Lemma map_fst_rewrite (f : nat * Node -> nat * Node) (b : list (nat * Node)) :
  (forall x, fst (f x) = fst x) -> map fst (map f b) = map fst b.
Proof.
  intro H. rewrite map_map. apply map_ext. exact H.
Qed.

Lemma frame_set_innerHTML (c : nat) (html : Html) (w : World Host) :
  frame 0 w (set_innerHTML c html w).
Proof.
  apply frame_same_nodes; try reflexivity. simpl.
  apply map_fst_rewrite. intros [n [t|m]]; [reflexivity|].
  now destruct (Nat.eqb n c).
Qed.

Lemma frame_set_transform (el : nat) (v : string) (w : World Host) :
  frame 0 w (set_transform el v w).
Proof.
  apply frame_same_nodes; try reflexivity. simpl.
  apply map_fst_rewrite. intros [n [t|m]]; [|reflexivity].
  now destruct (Nat.eqb n el).
Qed.

Lemma frame_host_call (c : Call) (h : Host) (w : World Host) :
  frame 0 w (called c (set_host h w)).
Proof. apply frame_same_nodes; reflexivity. Qed.

Lemma frame_showNotification (message : string) (type : Severity) (w : World Host) :
  frame 3 w (showNotification message type w).
Proof.
  rewrite showNotification_effect. repeat split; simpl; auto.
  - intros n H. rewrite map_app in H. apply in_app_or in H as [H|H]; [now left|].
    right. destruct H as [<-|[]]. simpl. lia.
  - exists [((now w + 50)%Z, SlideIn (next_node w));
            ((now w + 3000)%Z, SlideOut (next_node w))].
    split; [now rewrite <- app_assoc|]. unfold queue_weight. simpl. lia.
Qed.

Lemma frame_populatePlaylistListFromRedux (w : World Host) :
  frame 0 w (populatePlaylistListFromRedux api w).
Proof.
  unfold populatePlaylistListFromRedux.
  destruct (find_playlist_list (body w)); [|apply frame_refl].
  destruct (getState api (host w)); apply frame_set_innerHTML.
Qed.

Lemma frame_populatePlaylistList (w : World Host) :
  frame 0 w (populatePlaylistList api w).
Proof.
  unfold populatePlaylistList.
  destruct (find_playlist_list (body w)) as [c|]; [|apply frame_refl].
  destruct (getUserPlaylists api) as [call|].
  - destruct (call (host w)) as [[l|e] h].
    + eapply (frame_trans 0 0); [apply frame_host_call|apply frame_set_innerHTML].
    + eapply (frame_trans 0 0);
        [apply frame_host_call|apply frame_populatePlaylistListFromRedux].
  - destruct (getMyPlaylists api) as [call|].
    + destruct (call (host w)) as [[l|e] h].
      * eapply (frame_trans 0 0); [apply frame_host_call|apply frame_set_innerHTML].
      * eapply (frame_trans 0 0);
          [apply frame_host_call|apply frame_populatePlaylistListFromRedux].
    + apply frame_populatePlaylistListFromRedux.
Qed.

(** Creating elements and appending the first of them. *)
Lemma frame_new_overlay (node : Node) (w : World Host) :
  frame 0 w (appendChild (next_node w) node
               (set_next_node (S (S (next_node w))) w)).
Proof.
  repeat split; simpl; auto.
  - intros n H. rewrite map_app in H. apply in_app_or in H as [H|H]; [now left|].
    right. destruct H as [<-|[]]. simpl. lia.
  - exists []. now rewrite app_nil_r.
Qed.

Lemma frame_showPlaylistSelector (song : MediaItem) (w : World Host) :
  frame 0 w (snd (showPlaylistSelector api song w)).
Proof.
  unfold showPlaylistSelector, createElement. simpl.
  destruct (resolve_songTitle song) as [songTitle|e]; simpl.
  - eapply (frame_trans 0 0); [apply frame_new_overlay|apply frame_populatePlaylistList].
  - repeat split; simpl; auto. exists []. now rewrite app_nil_r.
Qed.

Lemma frame_contextMenuClick (w : World Host) :
  frame 3 w (contextMenuClick api w).
Proof.
  unfold contextMenuClick.
  destruct (JS.truthy (contextMenuSongId w)); [|apply frame_showNotification].
  destruct (fromId api _ _ _) as [[[mediaItem|]|e] h].
  - set (w1 := called _ (set_host h w)).
    assert (H1 : frame 0 w w1) by apply frame_host_call.
    assert (H2 := frame_showPlaylistSelector mediaItem w1).
    destruct (showPlaylistSelector api mediaItem w1) as [[u|e] w2]; simpl in H2.
    + apply (frame_weaken 0); [lia|]. apply (frame_trans 0 0 _ _ _ H1 H2).
    + eapply (frame_trans 0 3); [|apply frame_showNotification].
      apply (frame_trans 0 0 _ _ _ H1 H2).
  - eapply (frame_trans 0 3); [apply frame_host_call|apply frame_showNotification].
  - eapply (frame_trans 0 3); [apply frame_host_call|apply frame_showNotification].
Qed.

Lemma frame_removeChild (el : nat) (w : World Host) :
  frame 0 w (removeChild el w).
Proof.
  repeat split; simpl; auto.
  - intros n H. left. apply in_map_iff in H as (x & <- & Hx).
    apply filter_In in Hx as [Hx _]. now apply in_map.
  - exists []. now rewrite app_nil_r.
Qed.

Lemma frame_setTimeout (task : Task) (delay : Z) (w : World Host) :
  frame (task_weight task) w (setTimeout task delay w).
Proof.
  repeat split; simpl; auto.
  exists [((now w + delay)%Z, task)]. split; [reflexivity|].
  unfold queue_weight. simpl. lia.
Qed.

(** A callback adds less weight than it had while pending. *)
Lemma frame_run_task (task : Task) (w : World Host) :
  frame (task_weight task - 1) w (run_task api task w).
Proof.
  destruct task as [n|n|n|]; simpl.
  - apply frame_set_transform.
  - eapply (frame_trans 0 1);
      [apply frame_set_transform|apply (frame_setTimeout (RemoveToast n))].
  - destruct (has_parent n w); [apply frame_removeChild|apply frame_refl].
  - apply frame_contextMenuClick.
Qed.

(** ** The timer queue *)

Lemma extract_earliest_none (q : list (Z * Task)) :
  extract_earliest q = None -> q = [].
Proof.
  destruct q as [|x q]; simpl; [reflexivity|].
  destruct (extract_earliest q) as [[y rest]|]; [|discriminate].
  destruct (fst x <=? fst y)%Z; discriminate.
Qed.

Lemma extract_earliest_perm (q : list (Z * Task)) :
  forall y rest, extract_earliest q = Some (y, rest) -> Permutation q (y :: rest).
Proof.
  induction q as [|x q IH]; simpl; intros y rest H; [discriminate|].
  destruct (extract_earliest q) as [[y0 rest0]|] eqn:Hq.
  - specialize (IH y0 rest0 eq_refl).
    destruct (fst x <=? fst y0)%Z; injection H as <- <-.
    + reflexivity.
    + rewrite perm_swap. now apply perm_skip.
  - injection H as <- <-. now rewrite (extract_earliest_none q Hq).
Qed.

Lemma extract_earliest_least (q : list (Z * Task)) :
  forall y rest, extract_earliest q = Some (y, rest) ->
  forall x, In x q -> (fst y <= fst x)%Z.
Proof.
  induction q as [|x0 q IH]; simpl; intros y rest H x Hx; [destruct Hx|].
  destruct (extract_earliest q) as [[y0 rest0]|] eqn:Hq.
  - specialize (IH y0 rest0 eq_refl).
    assert (Hy0 : In y0 q).
    { apply (Permutation_in y0 (Permutation_sym (extract_earliest_perm q _ _ Hq))).
      now left. }
    destruct (Z.leb_spec (fst x0) (fst y0)); injection H as <- <-.
    + destruct Hx as [<-|Hx]; [lia|]. specialize (IH x Hx). lia.
    + destruct Hx as [<-|Hx]; [lia|]. now apply IH.
  - injection H as <- <-. rewrite (extract_earliest_none q Hq) in Hx.
    destruct Hx as [<-|[]]. lia.
Qed.

Lemma queue_weight_perm (q q' : list (Z * Task)) :
  Permutation q q' -> queue_weight q = queue_weight q'.
Proof.
  unfold queue_weight. induction 1; simpl; lia.
Qed.

Lemma task_weight_pos (task : Task) : 1 <= task_weight task.
Proof. destruct task; simpl; lia. Qed.

Lemma run_timers_fire (fuel : nat) (t due : Z) (task : Task) (rest : list (Z * Task))
  (w : World Host) :
  extract_earliest (timers w) = Some ((due, task), rest) ->
  (due <= t)%Z ->
  run_timers api (S fuel) t w =
  run_timers api fuel t
    (run_task api task (set_now (Z.max (now w) due) (set_timers rest w))).
Proof.
  intros H Hdue. simpl. rewrite H.
  now rewrite (proj2 (Z.leb_le due t) Hdue).
Qed.

Lemma run_timers_idle (fuel : nat) (t : Z) (w : World Host) :
  (forall x, In x (timers w) -> (t < fst x)%Z) ->
  run_timers api fuel t w = w.
Proof.
  intro H. destruct fuel as [|fuel]; simpl; [reflexivity|].
  destruct (extract_earliest (timers w)) as [[[due task] rest]|] eqn:Hq; [|reflexivity].
  assert (Hin : In (due, task) (timers w)).
  { apply (Permutation_in _ (Permutation_sym (extract_earliest_perm _ _ _ Hq))).
    now left. }
  apply H in Hin. simpl in Hin.
  destruct (Z.leb_spec due t); [lia|reflexivity].
Qed.

(** With the weight of the queue as fuel, no due timer is left behind. *)
Lemma run_timers_complete (t : Z) :
  forall (fuel : nat) (w : World Host),
    queue_weight (timers w) <= fuel ->
    forall x, In x (timers (run_timers api fuel t w)) -> (t < fst x)%Z.
Proof.
  induction fuel as [|fuel IH]; intros w Hfuel x Hx.
  - simpl in Hx. destruct (timers w) as [|[d k] q]; [destruct Hx|].
    unfold queue_weight in Hfuel. simpl in Hfuel.
    pose proof (task_weight_pos k). lia.
  - simpl in Hx.
    destruct (extract_earliest (timers w)) as [[[due task] rest]|] eqn:Hq.
    + destruct (Z.leb_spec due t) as [Hdue|Hdue].
      * revert Hx. apply IH.
        destruct (frame_run_task task (set_now (Z.max (now w) due) (set_timers rest w)))
          as (_ & _ & _ & _ & _ & added & -> & Hadded).
        simpl. rewrite queue_weight_app.
        rewrite (queue_weight_perm _ _ (extract_earliest_perm _ _ _ Hq)) in Hfuel.
        unfold queue_weight in Hfuel at 1. simpl in Hfuel.
        fold (queue_weight rest) in Hfuel.
        pose proof (task_weight_pos task). lia.
      * pose proof (extract_earliest_least _ _ _ Hq x Hx) as Hle. simpl in Hle. lia.
    + rewrite (extract_earliest_none _ Hq) in Hx. destruct Hx.
Qed.

(** ** The captured identity *)

Lemma run_timers_capture (t : Z) :
  forall (fuel : nat) (w : World Host),
    contextMenuSongId (run_timers api fuel t w) = contextMenuSongId w
    /\ contextMenuContentType (run_timers api fuel t w) = contextMenuContentType w.
Proof.
  induction fuel as [|fuel IH]; intro w; simpl; [auto|].
  destruct (extract_earliest (timers w)) as [[[due task] rest]|]; [|auto].
  destruct (due <=? t)%Z; [|auto].
  destruct (IH (run_task api task (set_now (Z.max (now w) due) (set_timers rest w))))
    as [-> ->].
  destruct (frame_run_task task (set_now (Z.max (now w) due) (set_timers rest w)))
    as (-> & -> & _).
  auto.
Qed.

Lemma fromId_calls_app (c1 c2 : list Call) :
  fromId_calls (c1 ++ c2) = fromId_calls c1 ++ fromId_calls c2.
Proof. unfold fromId_calls. apply flat_map_app. Qed.

Lemma populatePlaylistListFromRedux_calls (w : World Host) :
  calls (populatePlaylistListFromRedux api w) = calls w.
Proof.
  unfold populatePlaylistListFromRedux.
  destruct (find_playlist_list (body w)); [|reflexivity].
  now destruct (getState api (host w)).
Qed.

Lemma populatePlaylistList_fromId_calls (w : World Host) :
  fromId_calls (calls (populatePlaylistList api w)) = fromId_calls (calls w).
Proof.
  unfold populatePlaylistList.
  destruct (find_playlist_list (body w)); [|reflexivity].
  destruct (getUserPlaylists api) as [call|].
  - destruct (call (host w)) as [[l|e] h].
    + simpl. rewrite fromId_calls_app. simpl. now rewrite app_nil_r.
    + rewrite populatePlaylistListFromRedux_calls. simpl.
      rewrite fromId_calls_app. simpl. now rewrite app_nil_r.
  - destruct (getMyPlaylists api) as [call|].
    + destruct (call (host w)) as [[l|e] h].
      * simpl. rewrite fromId_calls_app. simpl. now rewrite app_nil_r.
      * rewrite populatePlaylistListFromRedux_calls. simpl.
        rewrite fromId_calls_app. simpl. now rewrite app_nil_r.
    + now rewrite populatePlaylistListFromRedux_calls.
Qed.

Lemma showPlaylistSelector_fromId_calls (song : MediaItem) (w : World Host) :
  fromId_calls (calls (snd (showPlaylistSelector api song w))) = fromId_calls (calls w).
Proof.
  unfold showPlaylistSelector, createElement. simpl.
  destruct (resolve_songTitle song); simpl; [|reflexivity].
  now rewrite populatePlaylistList_fromId_calls.
Qed.

(** What the deferred callback adds to the resolution calls. *)
Lemma contextMenuClick_fromId_calls (w : World Host) :
  fromId_calls (calls (contextMenuClick api w)) =
  fromId_calls (calls w) ++
  (if JS.truthy (contextMenuSongId w)
   then [(contextMenuSongId w, contextMenuContentType w)]
   else []).
Proof.
  unfold contextMenuClick.
  destruct (JS.truthy (contextMenuSongId w)).
  - destruct (fromId api _ _ _) as [[[mediaItem|]|e] h].
    + set (w1 := called _ (set_host h w)).
      pose proof (showPlaylistSelector_fromId_calls mediaItem w1) as Hsel.
      destruct (showPlaylistSelector api mediaItem w1) as [[u|e] w2];
        simpl in Hsel; [|rewrite showNotification_effect; simpl];
        rewrite Hsel; unfold w1; simpl; now rewrite fromId_calls_app.
    + rewrite showNotification_effect. simpl. now rewrite fromId_calls_app.
    + rewrite showNotification_effect. simpl. now rewrite fromId_calls_app.
  - rewrite showNotification_effect. simpl. now rewrite app_nil_r.
Qed.

(** C5. The click handler and its deferred callback never write the
    captured identity: whatever timers fire after a click, the identifier
    and the content type are the ones captured before it; whenever the
    identifier is truthy the deferred callback resolves it, and a second
    deferred callback with no menu-open event in between finds the same
    identity and resolves it a second time. *)
Theorem C5_captured_identity_survives_click (w : World Host) (t : Z) :
  contextMenuSongId (advance api t (onClick w)) = contextMenuSongId w
  /\ contextMenuContentType (advance api t (onClick w)) = contextMenuContentType w
  /\ contextMenuSongId (contextMenuClick api w) = contextMenuSongId w
  /\ fromId_calls (calls (contextMenuClick api w)) =
       fromId_calls (calls w) ++
       (if JS.truthy (contextMenuSongId w)
        then [(contextMenuSongId w, contextMenuContentType w)]
        else [])
  /\ fromId_calls (calls (contextMenuClick api (contextMenuClick api w))) =
       fromId_calls (calls w) ++
       (if JS.truthy (contextMenuSongId w)
        then [(contextMenuSongId w, contextMenuContentType w);
              (contextMenuSongId w, contextMenuContentType w)]
        else []).
Proof.
  unfold advance. cbn [contextMenuSongId contextMenuContentType set_now].
  destruct (run_timers_capture t (queue_weight (timers (onClick w))) (onClick w))
    as [-> ->].
  destruct (frame_contextMenuClick w) as (Hid & Hct & _).
  split; [reflexivity|]. split; [reflexivity|]. split; [exact Hid|].
  split; [apply contextMenuClick_fromId_calls|].
  rewrite !contextMenuClick_fromId_calls, Hid, Hct.
  destruct (JS.truthy (contextMenuSongId w)); [|now rewrite !app_nil_r].
  now rewrite <- app_assoc.
Qed.

(** C7. A click while no identity is captured (the identifier is null, or
    any other falsy value): the deferred callback adds exactly one toast,
    the error 'No song selected', and makes no host call; with no other
    timer pending, 100 ms after the click the document has gained that one
    toast, the only host call made is the menu close, and [MediaItem.fromId]
    has not been called. *)
Theorem C7_click_without_captured_identity (w : World Host) :
  JS.truthy (contextMenuSongId w) = false ->
  (body (contextMenuClick api w) =
     body w ++ [(next_node w,
                 ToastNode {| toast_text := "No song selected";
                              toast_background := "#f44336";
                              toast_transform := "translateX(300px)" |})]
   /\ calls (contextMenuClick api w) = calls w)
  /\ (timers w = [] ->
      body (advance api (now w + 100) (onClick w)) =
        body w ++ [(next_node w,
                    ToastNode {| toast_text := "No song selected";
                                 toast_background := "#f44336";
                                 toast_transform := "translateX(300px)" |})]
      /\ calls (advance api (now w + 100) (onClick w)) = calls w ++ [ContextMenuClose]
      /\ fromId_calls (calls (advance api (now w + 100) (onClick w))) =
           fromId_calls (calls w)).
Proof.
  intro Hnone. split.
  - unfold contextMenuClick. rewrite Hnone. split; reflexivity.
  - intro Hq.
    assert (Hrun : run_timers api (queue_weight (timers (onClick w))) (now w + 100) (onClick w)
                   = showNotification "No song selected" error
                       (set_now (now w + 100) (set_timers [] (onClick w)))).
    { unfold onClick at 1. cbn [timers setTimeout set_timers called set_calls now].
      rewrite Hq. change (queue_weight _) with 4.
      rewrite (run_timers_fire 3 (now w + 100) (now w + 100) ContextMenuClick [] (onClick w)).
      - cbn [run_task]. unfold contextMenuClick.
        cbn [contextMenuSongId set_now set_timers onClick setTimeout called set_calls now].
        rewrite Hnone. rewrite Z.max_r by lia.
        apply run_timers_idle. rewrite showNotification_effect.
        cbn [timers set_now set_timers now app].
        intros x [<-|[<-|[]]]; simpl; lia.
      - unfold onClick. cbn [timers setTimeout set_timers called set_calls now].
        rewrite Hq. reflexivity.
      - lia. }
    unfold advance. rewrite Hrun.
    cbn [body calls set_now]. rewrite showNotification_effect.
    cbn [body calls set_now set_timers onClick setTimeout called set_calls next_node].
    repeat split. rewrite fromId_calls_app. simpl. now rewrite app_nil_r.
Qed.

(** ** Removal of a toast *)

Lemma removeToast_removes (n : nat) (w : World Host) :
  ~ In n (map fst (body (run_task api (RemoveToast n) w))).
Proof.
  simpl. unfold has_parent. destruct (existsb _ (body w)) eqn:Hp.
  - simpl. intro H. apply in_map_iff in H as (x & Hx & Hin).
    apply filter_In in Hin as [_ Hne]. rewrite Hx, Nat.eqb_refl in Hne. discriminate.
  - intro H. apply in_map_iff in H as (x & Hx & Hin).
    assert (existsb (fun x => Nat.eqb (fst x) n) (body w) = true).
    { apply existsb_exists. exists x. split; [assumption|]. rewrite Hx. apply Nat.eqb_refl. }
    congruence.
Qed.

Lemma removal_pending_step (n : nat) (T : Z) (w : World Host)
  (due : Z) (task : Task) (rest : list (Z * Task)) :
  removal_pending n T w ->
  extract_earliest (timers w) = Some ((due, task), rest) ->
  removal_pending n T
    (run_task api task (set_now (Z.max (now w) due) (set_timers rest w))).
Proof.
  intros [Hn Hcase] Hq.
  set (w0 := set_now (Z.max (now w) due) (set_timers rest w)).
  pose proof (extract_earliest_perm _ _ _ Hq) as Hperm.
  pose proof (extract_earliest_least _ _ _ Hq) as Hleast.
  destruct (frame_run_task task w0) as (_ & _ & Hnow & Hnext & Hbody & added & Htimers & _).
  assert (Hkeep : forall x, In x (timers w) -> x = (due, task) \/
                            In x (timers (run_task api task w0))).
  { intros x Hx. apply (Permutation_in x Hperm) in Hx as [<-|Hx]; [now left|].
    right. rewrite Htimers. apply in_or_app. now left. }
  split; [simpl in Hnext; lia|].
  destruct Hcase as [Hgone | [(d & Hd & HdT) | (d & Hd & HdT & Hclock)]].
  - left. intro H. apply Hbody in H as [H|H]; [contradiction|]. simpl in H. lia.
  - destruct (Hkeep _ Hd) as [Heq|Hin].
    + injection Heq as <- <-. left. apply removeToast_removes.
    + right. left. exists d. auto.
  - destruct (Hkeep _ Hd) as [Heq|Hin].
    + injection Heq as <- <-. right. left. exists (d + 200)%Z. split; [|assumption].
      simpl. apply in_or_app. right. left. f_equal. lia.
    + right. right. exists d. repeat split; try assumption.
      rewrite Hnow. simpl. specialize (Hleast _ Hd). simpl in Hleast. lia.
Qed.

Lemma removal_pending_run_timers (n : nat) (T t : Z) :
  forall (fuel : nat) (w : World Host),
    removal_pending n T w -> removal_pending n T (run_timers api fuel t w).
Proof.
  induction fuel as [|fuel IH]; intros w H; simpl; [assumption|].
  destruct (extract_earliest (timers w)) as [[[due task] rest]|] eqn:Hq; [|assumption].
  destruct (due <=? t)%Z; [|assumption].
  apply IH. now apply removal_pending_step.
Qed.

(** C9. A toast created at time [now] is no longer in the document once
    the clock has reached [now] + 3000 + 200 ms, whatever its message and
    severity and whatever other timers are pending; timers fire at their
    due time. *)
Theorem C9_toast_removed_within_delay (message : string) (type : Severity)
  (w : World Host) (t : Z) :
  (now w + (3000 + 200) <= t)%Z ->
  In (next_node w, new_toast message type) (body (showNotification message type w))
  /\ ~ In (next_node w)
         (map fst (body (advance api t (showNotification message type w)))).
Proof.
  intro Ht. split.
  - rewrite showNotification_effect. simpl. apply in_or_app. right. now left.
  - set (w1 := showNotification message type w).
    assert (Hpending : removal_pending (next_node w) (now w + 3200) w1).
    { unfold w1. rewrite showNotification_effect. split; simpl; [lia|].
      right. right. exists (now w + 3000)%Z. repeat split; try lia.
      apply in_or_app. right. now left. }
    unfold advance. cbn [body set_now].
    pose proof (removal_pending_run_timers _ _ t (queue_weight (timers w1)) w1 Hpending)
      as [_ Hcase].
    pose proof (run_timers_complete t (queue_weight (timers w1)) w1 (le_n _)) as Hdone.
    destruct Hcase as [Hgone | [(d & Hd & HdT) | (d & Hd & HdT & _)]].
    + exact Hgone.
    + apply Hdone in Hd. simpl in Hd. lia.
    + apply Hdone in Hd. simpl in Hd. lia.
Qed.

(** ** Metadata lookups of the modal *)

Lemma resolve_songTitle_absent (song : MediaItem) :
  item_title song = None -> resolve_songTitle song = Return "Unknown Song".
Proof. unfold resolve_songTitle. now intros ->. Qed.

(** A rejecting [artist()], or a rejecting [artists()] or first artist when
    there is no [artist], leaves the placeholder. *)
Lemma resolve_songArtist_rejects (song : MediaItem) (e : string) :
  item_artist song = Some (Throw e)
  \/ (item_artist song = None /\ item_artists song = Some (Throw e))
  \/ (exists l, item_artist song = None
                /\ item_artists song = Some (Return (Some (Throw e :: l)))) ->
  resolve_songArtist song = "Unknown Artist".
Proof.
  unfold resolve_songArtist.
  intros [-> | [[-> ->] | (l & -> & ->)]]; reflexivity.
Qed.

Lemma overlay_kept_set_innerHTML (c n : nat) (html : Html) (m : Modal) (w : World Host) :
  In (n, OverlayNode m) (body w) ->
  exists m', In (n, OverlayNode m') (body (set_innerHTML c html w))
             /\ modal_songTitle m' = modal_songTitle m
             /\ modal_songArtist m' = modal_songArtist m.
Proof.
  intro H. simpl.
  destruct (Nat.eqb n c) eqn:Hc.
  - eexists. split; [|split].
    + apply in_map_iff. exists (n, OverlayNode m). split; [|exact H].
      simpl. rewrite Hc. reflexivity.
    + reflexivity.
    + reflexivity.
  - exists m. repeat split. apply in_map_iff. exists (n, OverlayNode m).
    split; [|exact H]. simpl. now rewrite Hc.
Qed.

Lemma overlay_kept_populatePlaylistListFromRedux (n : nat) (m : Modal) (w : World Host) :
  In (n, OverlayNode m) (body w) ->
  exists m', In (n, OverlayNode m') (body (populatePlaylistListFromRedux api w))
             /\ modal_songTitle m' = modal_songTitle m
             /\ modal_songArtist m' = modal_songArtist m.
Proof.
  intro H. unfold populatePlaylistListFromRedux.
  destruct (find_playlist_list (body w)) as [c|]; [|exists m; auto].
  destruct (getState api (host w)); now apply overlay_kept_set_innerHTML.
Qed.

Lemma overlay_kept_populatePlaylistList (n : nat) (m : Modal) (w : World Host) :
  In (n, OverlayNode m) (body w) ->
  exists m', In (n, OverlayNode m') (body (populatePlaylistList api w))
             /\ modal_songTitle m' = modal_songTitle m
             /\ modal_songArtist m' = modal_songArtist m.
Proof.
  intro H. unfold populatePlaylistList.
  destruct (find_playlist_list (body w)) as [c|]; [|exists m; auto].
  destruct (getUserPlaylists api) as [call|].
  - destruct (call (host w)) as [[l|e] h].
    + now apply overlay_kept_set_innerHTML.
    + now apply overlay_kept_populatePlaylistListFromRedux.
  - destruct (getMyPlaylists api) as [call|].
    + destruct (call (host w)) as [[l|e] h].
      * now apply overlay_kept_set_innerHTML.
      * now apply overlay_kept_populatePlaylistListFromRedux.
    + now apply overlay_kept_populatePlaylistListFromRedux.
Qed.

(** When the title lookup delivers a title the modal opens, with that title
    and the artist name or its placeholder. *)
Lemma showPlaylistSelector_opens (song : MediaItem) (songTitle : string) (w : World Host) :
  resolve_songTitle song = Return songTitle ->
  fst (showPlaylistSelector api song w) = Return tt
  /\ exists m, In (next_node w, OverlayNode m) (body (snd (showPlaylistSelector api song w)))
               /\ modal_songTitle m = songTitle
               /\ modal_songArtist m = resolve_songArtist song.
Proof.
  intro Htitle. unfold showPlaylistSelector, createElement. simpl.
  rewrite Htitle. simpl. split; [reflexivity|].
  match goal with |- context [populatePlaylistList api ?w1] => set (w' := w1) end.
  apply (overlay_kept_populatePlaylistList (next_node w)
           {| modal_songTitle := songTitle;
              modal_songArtist := resolve_songArtist song;
              playlist_list := Labels [] |} w').
  simpl. apply in_or_app. right. now left.
Qed.

(** C6. At a song whose [title()] rejects, [showPlaylistSelector] rejects
    with that error and appends nothing: no modal opens and no placeholder
    title is used. *)
Theorem C6_title_rejection_propagates (w : World Host) :
  fst (showPlaylistSelector api ex_song_title_rejects w) = Throw "title unavailable"
  /\ body (snd (showPlaylistSelector api ex_song_title_rejects w)) = body w.
Proof. split; reflexivity. Qed.

(** * Further properties of the code *)

(** ** Rendering of rows *)



Lemma map_or_throw_total {A B : Type} (f : A -> result B) (l : list A) :
  (forall x, In x l -> exists y, f x = Return y) ->
  exists ys, map_or_throw f l = Return ys /\ Forall2 (fun x y => f x = Return y) l ys.
Proof.
  induction l as [|x l IH]; intro H; simpl.
  - exists []. split; [reflexivity|constructor].
  - destruct (H x (or_introl eq_refl)) as (y & Hy).
    destruct IH as (ys & Hys & Hall); [intros z Hz; apply H; now right|].
    exists (y :: ys). rewrite Hy, Hys. split; [reflexivity|now constructor].
Qed.

Lemma map_or_throw_throws {A B : Type} (f : A -> result B) (l : list A) (x : A) (e : string) :
  In x l -> f x = Throw e -> exists e', map_or_throw f l = Throw e'.
Proof.
  induction l as [|y l IH]; intros Hin Hx; [destruct Hin|]. simpl.
  destruct (f y) as [z|e0] eqn:Hy; [|now exists e0].
  destruct Hin as [->|Hin]; [congruence|].
  destruct (IH Hin Hx) as (e' & ->). now exists e'.
Qed.


(** ** The redux fallback *)

Lemma owned_rows (currentUserId : JS.value) (l : list (option Playlist)) :
  exists rows,
    map_or_throw redux_row (filter (isCurrentUserPlaylist currentUserId) l) = Return rows
    /\ Forall2 (fun playlist row => redux_row playlist = Return row)
         (filter (isCurrentUserPlaylist currentUserId) l) rows.
Proof.
  apply map_or_throw_total. intros x Hx. apply filter_In in Hx as [_ Hx].
  destruct (isCurrentUserPlaylist_sound _ _ Hx) as (p & -> & _). simpl. eauto.
Qed.

(** X2. When at least one playlist of the snapshot passes the ownership
    filter, the container shows one row per passing playlist, in the order
    of the snapshot: no owned playlist is left out. *)
Theorem redux_fallback_lists_every_owned_playlist (w : World Host) (c : nat) (state : State) :
  find_playlist_list (body w) = Some c ->
  getState api (host w) = Return state ->
  filter (isCurrentUserPlaylist (currentUserId_of state)) (map snd (playlists_of state)) <> [] ->
  exists rows,
    container_html (body (populatePlaylistListFromRedux api w)) = Some (Labels rows)
    /\ Forall2 (fun playlist row => redux_row playlist = Return row)
         (filter (isCurrentUserPlaylist (currentUserId_of state))
            (map snd (playlists_of state))) rows.
Proof.
  intros Hc Hst Hsome.
  destruct (owned_rows (currentUserId_of state) (map snd (playlists_of state)))
    as (rows & Hrows & Hall).
  exists rows. split; [|exact Hall].
  rewrite (populatePlaylistListFromRedux_html w c Hc), Hst. f_equal.
  unfold redux_html.
  destruct (playlists_of state) as [|x l] eqn:Hp; [now simpl in Hsome|].
  change (List.length (x :: l) =? 0)%nat with false. cbv iota.
  rewrite Hrows.
  destruct (filter _ (map snd (x :: l))) as [|y ys]; [congruence|].
  reflexivity.
Qed.

(** X3. With a non-empty snapshot and no current user id (undefined, null,
    0 or the empty string) the container is emptied: no row and no message
    at all. *)
Theorem redux_fallback_unknown_user_empties_container (w : World Host) (c : nat)
  (state : State) :
  find_playlist_list (body w) = Some c ->
  getState api (host w) = Return state ->
  playlists_of state <> [] ->
  JS.truthy (currentUserId_of state) = false ->
  container_html (body (populatePlaylistListFromRedux api w)) = Some (Labels []).
Proof.
  intros Hc Hst Hne Hid.
  rewrite (populatePlaylistListFromRedux_html w c Hc), Hst. f_equal.
  unfold redux_html.
  destruct (playlists_of state) as [|x l] eqn:Hp; [congruence|].
  change (List.length (x :: l) =? 0)%nat with false. cbv iota.
  rewrite filter_unknown_user by assumption. rewrite Hid. reflexivity.
Qed.

(** X4. The two plain outcomes of the fallback: a throwing [getState()]
    leaves 'Error loading playlists', and a state without content, without
    playlists or with an empty playlist object leaves 'No playlists found.
    Create some playlists first!', whoever the user is. *)
Theorem redux_fallback_error_and_empty_messages (w : World Host) (c : nat) :
  find_playlist_list (body w) = Some c ->
  (forall e, getState api (host w) = Throw e ->
     container_html (body (populatePlaylistListFromRedux api w)) =
     Some (Paragraph "color: #ff6b6b;" "Error loading playlists"))
  /\ (forall state,
        getState api (host w) = Return state ->
        (state_content state = None
         \/ (exists content, state_content state = Some content
                             /\ (content_playlists content = None
                                 \/ content_playlists content = Some []))) ->
        container_html (body (populatePlaylistListFromRedux api w)) =
        Some (Paragraph "opacity: 0.7;" "No playlists found. Create some playlists first!")).
Proof.
  intro Hc. rewrite (populatePlaylistListFromRedux_html w c Hc). split.
  - intros e ->. reflexivity.
  - intros state -> Hempty. f_equal. unfold redux_html, playlists_of.
    destruct Hempty as [-> | (content & -> & [-> | ->])]; reflexivity.
Qed.

(** ** populatePlaylistList *)

Lemma populatePlaylistList_cases (w : World Host) (c : nat) :
  find_playlist_list (body w) = Some c ->
  populatePlaylistList api w =
  match playlist_query api with
  | Some (tag, call) =>
      match call (host w) with
      | (Return playlistsArray, h) =>
          set_innerHTML c (api_html playlistsArray) (called tag (set_host h w))
      | (Throw _, h) => populatePlaylistListFromRedux api (called tag (set_host h w))
      end
  | None => populatePlaylistListFromRedux api w
  end.
Proof.
  intro Hc. unfold populatePlaylistList, playlist_query. rewrite Hc.
  destruct (getUserPlaylists api) as [call|].
  - now destruct (call (host w)) as [[l|e] h].
  - destruct (getMyPlaylists api) as [call|]; [|reflexivity].
    now destruct (call (host w)) as [[l|e] h].
Qed.

(** X5. [getUserPlaylists] wins: when the host has it and it delivers a
    non-empty array of playlist objects, the container shows one row per
    element in order, unfiltered; the only host call is that one, whatever
    [getMyPlaylists] and the redux state are. *)
Theorem api_result_is_rendered_unfiltered (w : World Host) (c : nat)
  (call : Host -> result (list (option ApiPlaylist)) * Host)
  (playlistsArray : list (option ApiPlaylist)) (h : Host) :
  find_playlist_list (body w) = Some c ->
  getUserPlaylists api = Some call ->
  call (host w) = (Return playlistsArray, h) ->
  playlistsArray <> [] ->
  ~ In None playlistsArray ->
  calls (populatePlaylistList api w) = calls w ++ [PlaylistGetUserPlaylists]
  /\ exists rows,
       container_html (body (populatePlaylistList api w)) = Some (Labels rows)
       /\ Forall2 (fun playlist row => api_row playlist = Return row) playlistsArray rows.
Proof.
  intros Hc Hq Hcall Hne Hobj.
  rewrite (populatePlaylistList_cases w c Hc). unfold playlist_query. rewrite Hq, Hcall.
  split; [reflexivity|].
  destruct (map_or_throw_total api_row playlistsArray) as (rows & Hrows & Hall).
  { intros [p|] Hp; [simpl; eauto|contradiction]. }
  exists rows. split; [|exact Hall].
  rewrite container_html_set_innerHTML by exact Hc. f_equal.
  unfold api_html. rewrite Hrows.
  destruct playlistsArray; [congruence|reflexivity].
Qed.

(** X6. The array a query method delivers is all or nothing: an empty
    array leaves 'No playlists found...', and one null element replaces the
    whole list by 'Error loading playlists'. *)
Theorem api_result_empty_or_with_null (w : World Host) (c : nat) (tag : Call)
  (call : Host -> result (list (option ApiPlaylist)) * Host)
  (playlistsArray : list (option ApiPlaylist)) (h : Host) :
  find_playlist_list (body w) = Some c ->
  playlist_query api = Some (tag, call) ->
  call (host w) = (Return playlistsArray, h) ->
  (playlistsArray = [] ->
     container_html (body (populatePlaylistList api w)) =
     Some (Paragraph "opacity: 0.7;" "No playlists found. Create some playlists first!"))
  /\ (In None playlistsArray ->
        container_html (body (populatePlaylistList api w)) =
        Some (Paragraph "color: #ff6b6b;" "Error loading playlists")).
Proof.
  intros Hc Hq Hcall.
  rewrite (populatePlaylistList_cases w c Hc), Hq, Hcall.
  rewrite container_html_set_innerHTML by exact Hc. split.
  - intros ->. reflexivity.
  - intro Hnull. f_equal. unfold api_html.
    destruct playlistsArray as [|x l]; [destruct Hnull|].
    change (List.length (x :: l) =? 0)%nat with false. cbv iota.
    destruct (map_or_throw_throws api_row (x :: l) None "TypeError" Hnull eq_refl)
      as (e & ->).
    reflexivity.
Qed.

Lemma surfaced_rows (w : World Host) (row : Row) :
  In row (surfaced w) ->
  exists rows, container_html (body w) = Some (Labels rows) /\ In row rows.
Proof.
  unfold surfaced. destruct (container_html (body w)) as [[s t|rows]|]; try contradiction.
  intro H. now exists rows.
Qed.

(** X7. Whatever the host offers, a row of [populatePlaylistList] is either
    an element of the array the chosen query method delivered, or, on the
    redux path (no method, or the method threw), a playlist of the snapshot
    with type 'USER' whose creator is the known current user. *)
Theorem populatePlaylistList_rows_origin (w : World Host) (row : Row) :
  In row (surfaced (populatePlaylistList api w)) ->
  (exists tag call playlistsArray h playlist,
     playlist_query api = Some (tag, call)
     /\ call (host w) = (Return playlistsArray, h)
     /\ In (Some playlist) playlistsArray
     /\ api_row (Some playlist) = Return row)
  \/ (exists state playlist,
        getState api (host (populatePlaylistList api w)) = Return state
        /\ In (Some playlist) (map snd (playlists_of state))
        /\ pl_type playlist = JS.Str "USER"
        /\ JS.truthy (currentUserId_of state) = true
        /\ playlistCreatorId_of playlist = currentUserId_of state
        /\ redux_row (Some playlist) = Return row).
Proof.
  intro Hrow.
  destruct (find_playlist_list (body w)) as [c|] eqn:Hc.
  - assert (Hredux : forall w0,
              In row (surfaced (populatePlaylistListFromRedux api w0)) ->
              exists state playlist,
                getState api (host (populatePlaylistListFromRedux api w0)) = Return state
                /\ In (Some playlist) (map snd (playlists_of state))
                /\ pl_type playlist = JS.Str "USER"
                /\ JS.truthy (currentUserId_of state) = true
                /\ playlistCreatorId_of playlist = currentUserId_of state
                /\ redux_row (Some playlist) = Return row).
    { intros w0 H0.
      assert (Hh : host (populatePlaylistListFromRedux api w0) = host w0).
      { unfold populatePlaylistListFromRedux.
        destruct (find_playlist_list (body w0)); [|reflexivity].
        now destruct (getState api (host w0)). }
      rewrite Hh. unfold surfaced in H0.
      destruct (find_playlist_list (body w0)) as [c0|] eqn:Hc0.
      - rewrite (populatePlaylistListFromRedux_html w0 c0 Hc0) in H0.
        destruct (getState api (host w0)) as [state|e]; [|destruct H0].
        destruct (redux_html state) as [s t|rows] eqn:Hhtml; [destruct H0|].
        destruct (redux_html_rows state rows Hhtml row H0) as (p & Hp).
        exists state, p. auto.
      - unfold populatePlaylistListFromRedux in H0. rewrite Hc0 in H0.
        rewrite (container_html_none _ Hc0) in H0. destruct H0. }
    rewrite (populatePlaylistList_cases w c Hc) in Hrow |- *.
    destruct (playlist_query api) as [[tag call]|]; [|right; now apply Hredux].
    destruct (call (host w)) as [[l|e] h] eqn:Hcall; [|right; now apply Hredux].
    left. apply surfaced_rows in Hrow as (rows & Hhtml & Hin).
    rewrite container_html_set_innerHTML in Hhtml by exact Hc.
    injection Hhtml as Hhtml. unfold api_html in Hhtml.
    destruct (List.length l =? 0)%nat; [discriminate|].
    destruct (map_or_throw api_row l) as [rs|] eqn:Hmap; [|discriminate].
    injection Hhtml as <-.
    destruct (map_or_throw_In _ _ _ Hmap row Hin) as ([p|] & Hp & Hr); [|discriminate].
    exists tag, call, l, h, p. auto.
  - unfold populatePlaylistList in Hrow. rewrite Hc in Hrow.
    unfold surfaced in Hrow. rewrite (container_html_none _ Hc) in Hrow. destruct Hrow.
Qed.

(** ** The modal *)

Lemma toasts_rewrite_overlays (f : Modal -> Modal) (c : nat) (b : list (nat * Node)) :
  toasts (map (fun x =>
                 match x with
                 | (n, OverlayNode m) => if Nat.eqb n c then (n, OverlayNode (f m)) else x
                 | _ => x
                 end) b) = toasts b
  /\ overlays (map (fun x =>
                      match x with
                      | (n, OverlayNode m) => if Nat.eqb n c then (n, OverlayNode (f m)) else x
                      | _ => x
                      end) b) = overlays b
  /\ map fst (map (fun x =>
                     match x with
                     | (n, OverlayNode m) => if Nat.eqb n c then (n, OverlayNode (f m)) else x
                     | _ => x
                     end) b) = map fst b.
Proof.
  induction b as [|[n [t|m]] b (IH1 & IH2 & IH3)]; simpl.
  - auto.
  - rewrite IH3. unfold toasts, overlays in *. simpl. rewrite IH1, IH2. auto.
  - destruct (Nat.eqb n c); unfold toasts, overlays in *; simpl;
      rewrite IH1, IH2, IH3; auto.
Qed.

Lemma set_innerHTML_keeps (c : nat) (html : Html) (w : World Host) :
  toasts (body (set_innerHTML c html w)) = toasts (body w)
  /\ overlays (body (set_innerHTML c html w)) = overlays (body w)
  /\ map fst (body (set_innerHTML c html w)) = map fst (body w).
Proof.
  simpl.
  apply (toasts_rewrite_overlays
           (fun m => {| modal_songTitle := modal_songTitle m;
                        modal_songArtist := modal_songArtist m;
                        playlist_list := html |})).
Qed.

(** [populatePlaylistList] writes one container or nothing. *)
Lemma populatePlaylistList_body (w : World Host) :
  match find_playlist_list (body w) with
  | Some c => exists html, body (populatePlaylistList api w) = body (set_innerHTML c html w)
  | None => body (populatePlaylistList api w) = body w
  end.
Proof.
  destruct (find_playlist_list (body w)) as [c|] eqn:Hc.
  - rewrite (populatePlaylistList_cases w c Hc).
    assert (Hredux : forall w0, body w0 = body w ->
              exists html, body (populatePlaylistListFromRedux api w0)
                           = body (set_innerHTML c html w)).
    { intros w0 Hb. unfold populatePlaylistListFromRedux. rewrite Hb, Hc.
      destruct (getState api (host w0)); eexists; simpl; rewrite Hb; reflexivity. }
    destruct (playlist_query api) as [[tag call]|]; [|now apply Hredux].
    destruct (call (host w)) as [[l|e] h]; [|now apply Hredux].
    eexists. reflexivity.
  - unfold populatePlaylistList. now rewrite Hc.
Qed.

Lemma populatePlaylistList_keeps (w : World Host) :
  toasts (body (populatePlaylistList api w)) = toasts (body w)
  /\ overlays (body (populatePlaylistList api w)) = overlays (body w)
  /\ map fst (body (populatePlaylistList api w)) = map fst (body w).
Proof.
  pose proof (populatePlaylistList_body w) as H.
  destruct (find_playlist_list (body w)) as [c|].
  - destruct H as (html & ->). apply set_innerHTML_keeps.
  - rewrite H. auto.
Qed.

Lemma overlays_app (b1 b2 : list (nat * Node)) :
  overlays (b1 ++ b2) = overlays b1 ++ overlays b2.
Proof. unfold overlays. apply flat_map_app. Qed.

(** X8. When the title lookup delivers a title, [showPlaylistSelector]
    returns normally and the document gains exactly one element, a modal
    appended last that carries that title and the resolved artist line; no
    toast is created, no timer is set. *)
Theorem showPlaylistSelector_appends_one_modal (song : MediaItem) (songTitle : string)
  (w : World Host) :
  resolve_songTitle song = Return songTitle ->
  fst (showPlaylistSelector api song w) = Return tt
  /\ map fst (body (snd (showPlaylistSelector api song w))) = map fst (body w) ++ [next_node w]
  /\ overlays (body (snd (showPlaylistSelector api song w))) = overlays (body w) ++ [next_node w]
  /\ toasts (body (snd (showPlaylistSelector api song w))) = toasts (body w)
  /\ timers (snd (showPlaylistSelector api song w)) = timers w
  /\ exists m,
       In (next_node w, OverlayNode m) (body (snd (showPlaylistSelector api song w)))
       /\ modal_songTitle m = songTitle
       /\ modal_songArtist m = resolve_songArtist song.
Proof.
  intro Htitle.
  destruct (showPlaylistSelector_opens song songTitle w Htitle) as (Hret & Hmodal).
  split; [exact Hret|]. repeat split; try exact Hmodal.
  all: unfold showPlaylistSelector, createElement; simpl; rewrite Htitle; simpl.
  all: match goal with |- context [populatePlaylistList api ?w1] =>
         destruct (populatePlaylistList_keeps w1) as (Ht & Ho & Hi);
         destruct (frame_populatePlaylistList w1) as (_ & _ & _ & _ & _ & a & Hq & Ha)
       end.
  - rewrite Hi. simpl. now rewrite map_app.
  - rewrite Ho. simpl. now rewrite overlays_app.
  - rewrite Ht. simpl. rewrite toasts_app. simpl. now rewrite app_nil_r.
  - rewrite Hq. simpl. destruct a as [|x a]; [now rewrite app_nil_r|].
    unfold queue_weight in Ha. simpl in Ha. pose proof (task_weight_pos (snd x)). lia.
Qed.

(** X9. The artist line is never blank; when the song has an [artist]
    accessor, [artists] is not consulted at all; without it, only the first
    element of the [artists] array counts. *)
Theorem artist_line_rules (song : MediaItem) :
  resolve_songArtist song <> EmptyString
  /\ (forall song',
        item_artist song <> None ->
        item_artist song' = item_artist song ->
        resolve_songArtist song' = resolve_songArtist song)
  /\ (forall song' first others others',
        item_artist song = None -> item_artist song' = None ->
        item_artists song = Some (Return (Some (first :: others))) ->
        item_artists song' = Some (Return (Some (first :: others'))) ->
        resolve_songArtist song' = resolve_songArtist song).
Proof.
  assert (Hname : forall a, name_or a "Unknown Artist" <> EmptyString).
  { intros [[[name|]]|]; simpl; try discriminate.
    destruct (String.eqb_spec name EmptyString); [discriminate|assumption]. }
  unfold resolve_songArtist. split; [|split].
  - destruct (item_artist song) as [[a|e]|]; [apply Hname|discriminate|].
    destruct (item_artists song) as [[[[|[a|e] l]|]|e]|];
      try discriminate; apply Hname.
  - intros song' Hsome ->. destruct (item_artist song); [reflexivity|congruence].
  - intros song' first others others' -> -> -> ->. reflexivity.
Qed.

Lemma find_playlist_list_app (b1 b2 : list (nat * Node)) (c : nat) :
  find_playlist_list b1 = Some c -> find_playlist_list (b1 ++ b2) = Some c.
Proof.
  induction b1 as [|[n [t|m]] b1 IH]; simpl; intro H; [discriminate|auto|exact H].
Qed.

Lemma populatePlaylistList_html (w : World Host) (c : nat) :
  find_playlist_list (body w) = Some c ->
  container_html (body (populatePlaylistList api w)) = Some (listing_html api (host w)).
Proof.
  intro Hc. rewrite (populatePlaylistList_cases w c Hc). unfold listing_html.
  destruct (playlist_query api) as [[tag call]|].
  - destruct (call (host w)) as [[l|e] h].
    + now apply container_html_set_innerHTML.
    + now rewrite (populatePlaylistListFromRedux_html (called tag (set_host h w)) c Hc).
  - now rewrite (populatePlaylistListFromRedux_html w c Hc).
Qed.

(** X10. When a modal is already open, opening another one fills the
    container of the one already open ([querySelector] returns the first
    [#playlist-list]): that container receives the listing, whatever it
    held, and it is still the one [querySelector] finds; the new modal is
    appended with an empty list. *)
Theorem second_modal_is_left_empty (song : MediaItem) (songTitle : string)
  (w : World Host) (c : nat) :
  find_playlist_list (body w) = Some c ->
  c <> next_node w ->
  resolve_songTitle song = Return songTitle ->
  In (next_node w,
      OverlayNode {| modal_songTitle := songTitle;
                     modal_songArtist := resolve_songArtist song;
                     playlist_list := Labels [] |})
     (body (snd (showPlaylistSelector api song w)))
  /\ find_playlist_list (body (snd (showPlaylistSelector api song w))) = Some c
  /\ container_html (body (snd (showPlaylistSelector api song w))) =
       Some (listing_html api (host w)).
Proof.
  intros Hc Hne Htitle.
  unfold showPlaylistSelector, createElement. simpl. rewrite Htitle. simpl.
  match goal with |- context [populatePlaylistList api ?w1] => set (w1' := w1) end.
  assert (Hc1 : find_playlist_list (body w1') = Some c).
  { simpl. now apply find_playlist_list_app. }
  split; [|split].
  - pose proof (populatePlaylistList_body w1') as Hb. rewrite Hc1 in Hb.
    destruct Hb as (html & ->). simpl.
    rewrite map_app. apply in_or_app. right. simpl.
    destruct (Nat.eqb_spec (next_node w) c); [congruence|]. now left.
  - pose proof (populatePlaylistList_body w1') as Hb. rewrite Hc1 in Hb.
    destruct Hb as (html & ->). simpl.
    clear Hc1. rewrite map_app.
    revert Hc. generalize (body w) as b.
    induction b as [|[n [t|m]] b IH]; simpl; intro H; [discriminate|auto|].
    injection H as ->. now rewrite Nat.eqb_refl.
  - exact (populatePlaylistList_html w1' c Hc1).
Qed.

(** ** The bulk add, other paths *)

(** X11. With a non-empty selection and a song whose [title()] rejects, no
    host call is made, the host state is untouched, and the document gains
    exactly one toast, the error 'Error adding song to playlists'. *)
Theorem bulk_add_title_rejection (song : MediaItem) (ids : list string) (e : string)
  (w : World Host) :
  ids <> [] ->
  item_title song = Some (Throw e) ->
  calls (addToSelectedPlaylists api song ids w) = calls w
  /\ host (addToSelectedPlaylists api song ids w) = host w
  /\ body (addToSelectedPlaylists api song ids w) =
       body w ++ [(next_node w,
                   ToastNode {| toast_text := "Error adding song to playlists";
                                toast_background := "#f44336";
                                toast_transform := "translateX(300px)" |})].
Proof.
  intros Hne Htitle. unfold addToSelectedPlaylists, resolve_songTitle. rewrite Htitle.
  destruct ids; [congruence|]. repeat split.
Qed.

(** X12. Whatever the song, the selection and the host do, one run of the
    bulk add only appends to the document, and at most one element, an
    error toast; its only host calls are add commands, and they are either
    none at all or exactly one per entry of the selection, in selection
    order; it leaves the captured identity alone. *)
Theorem bulk_add_footprint (song : MediaItem) (ids : list string) (w : World Host) :
  (exists extra,
     body (addToSelectedPlaylists api song ids w) = body w ++ extra
     /\ (extra = [] \/ exists message, extra = [(next_node w, new_toast message error)]))
  /\ (exists issued,
        calls (addToSelectedPlaylists api song ids w) =
          calls w ++ map AddMediaItemsToPlaylist issued
        /\ (issued = [] \/ issued = map (add_action song) ids))
  /\ contextMenuSongId (addToSelectedPlaylists api song ids w) = contextMenuSongId w
  /\ contextMenuContentType (addToSelectedPlaylists api song ids w) = contextMenuContentType w.
Proof.
  destruct ids as [|p ids].
  - repeat split.
    + eexists. split; [reflexivity|]. right. eexists. reflexivity.
    + exists []. simpl. rewrite app_nil_r. auto.
  - destruct (resolve_songTitle song) as [songTitle|e] eqn:Htitle.
    + destruct (add_loop_spec song (p :: ids) 0 0 w)
        as (w3 & Hloop3 & Hc3 & Hb3 & Hn3 & _ & _ & Hs3 & Ht3).
      unfold addToSelectedPlaylists.
      change (List.length (p :: ids) =? 0)%nat with false. cbv iota.
      rewrite Htitle, Hloop3.
      destruct (0 <? _)%nat.
      * rewrite showNotification_effect. simpl. rewrite Hb3, Hn3, Hc3, Hs3, Ht3.
        repeat split.
        -- eexists. split; [reflexivity|]. right. eexists. reflexivity.
        -- exists (map (add_action song) (p :: ids)). rewrite map_map. auto.
      * rewrite Hb3, Hc3, Hs3, Ht3. repeat split.
        -- exists []. rewrite app_nil_r. auto.
        -- exists (map (add_action song) (p :: ids)). rewrite map_map. auto.
    + unfold addToSelectedPlaylists.
      change (List.length (p :: ids) =? 0)%nat with false. cbv iota. rewrite Htitle.
      repeat split.
      * eexists. split; [reflexivity|]. right. eexists. reflexivity.
      * exists []. simpl. rewrite app_nil_r. auto.
Qed.

Lemma count_succeeded_zero (outcomes : list (result unit)) :
  (forall r, In r outcomes -> succeeded r = false) ->
  count_succeeded outcomes = 0 /\ count_failed outcomes = List.length outcomes.
Proof.
  intro H. pose proof (count_total outcomes) as Ht.
  assert (Hz : count_succeeded outcomes = 0).
  { unfold count_succeeded. now rewrite filter_none. }
  lia.
Qed.

(** X13. When every add command throws, all of them are still issued, in
    selection order, and the one toast reads 'Failed to add "<title>" to
    playlists'. *)
Theorem bulk_add_all_failed (song : MediaItem) (ids : list string) (songTitle : string)
  (w : World Host) :
  ids <> [] ->
  resolve_songTitle song = Return songTitle ->
  (forall r, In r (add_outcomes api song ids (host w)) -> succeeded r = false) ->
  add_commands (calls (addToSelectedPlaylists api song ids w)) =
    add_commands (calls w) ++ map (add_action song) ids
  /\ toasts (body (addToSelectedPlaylists api song ids w)) =
       toasts (body w) ++
       [{| toast_text := ("Failed to add " ++ dquote ++ songTitle ++ dquote
                          ++ " to playlists")%string;
           toast_background := "#f44336";
           toast_transform := "translateX(300px)" |}].
Proof.
  intros Hne Htitle Hfail. split.
  - rewrite (addToSelectedPlaylists_calls song ids songTitle w Hne Htitle).
    now rewrite add_commands_app, add_commands_adds.
  - rewrite (addToSelectedPlaylists_toasts song ids songTitle w Hne Htitle).
    destruct (count_succeeded_zero _ Hfail) as [-> ->].
    rewrite add_outcomes_length.
    destruct ids; [congruence|]. reflexivity.
Qed.

(** X14. When exactly one add command returns and [failed] > 0 of them
    throw, the toast uses the singular: '"<title>" added to 1 playlist
    (<failed> failed)'. *)
Theorem bulk_add_single_success_message (song : MediaItem) (ids : list string)
  (songTitle : string) (failed : nat) (w : World Host) :
  ids <> [] ->
  resolve_songTitle song = Return songTitle ->
  count_succeeded (add_outcomes api song ids (host w)) = 1 ->
  count_failed (add_outcomes api song ids (host w)) = failed ->
  0 < failed ->
  toasts (body (addToSelectedPlaylists api song ids w)) =
    toasts (body w) ++
    [{| toast_text := (dquote ++ songTitle ++ dquote ++ " added to 1 playlist ("
                       ++ JS.nat_to_string failed ++ " failed)")%string;
        toast_background := "#f44336";
        toast_transform := "translateX(300px)" |}].
Proof.
  intros Hne Htitle Hok Hfailed Hpos.
  rewrite (addToSelectedPlaylists_toasts song ids songTitle w Hne Htitle).
  rewrite Hok, Hfailed.
  destruct failed; [lia|]. reflexivity.
Qed.

(** ** The deferred click, path by path *)

Lemma frame_no_timer (w w' : World Host) : frame 0 w w' -> timers w' = timers w.
Proof.
  intros (_ & _ & _ & _ & _ & a & -> & Ha).
  destruct a as [|x a]; [now rewrite app_nil_r|].
  unfold queue_weight in Ha. simpl in Ha. pose proof (task_weight_pos (snd x)). lia.
Qed.

Lemma showNotification_document (message : string) (type : Severity) (w : World Host) :
  toasts (body (showNotification message type w)) =
    toasts (body w) ++ [{| toast_text := message;
                           toast_background := background_of type;
                           toast_transform := "translateX(300px)" |}]
  /\ overlays (body (showNotification message type w)) = overlays (body w).
Proof.
  rewrite showNotification_effect. simpl. rewrite toasts_app, overlays_app. simpl.
  now rewrite app_nil_r.
Qed.

(** The document after [showPlaylistSelector], for both outcomes of the
    title lookup. *)
Lemma showPlaylistSelector_document (song : MediaItem) (w : World Host) :
  match resolve_songTitle song with
  | Return _ =>
      fst (showPlaylistSelector api song w) = Return tt
      /\ overlays (body (snd (showPlaylistSelector api song w))) =
           overlays (body w) ++ [next_node w]
      /\ toasts (body (snd (showPlaylistSelector api song w))) = toasts (body w)
  | Throw e =>
      fst (showPlaylistSelector api song w) = Throw e
      /\ body (snd (showPlaylistSelector api song w)) = body w
  end.
Proof.
  unfold showPlaylistSelector, createElement. simpl.
  destruct (resolve_songTitle song) as [songTitle|e]; simpl; [|auto].
  match goal with |- context [populatePlaylistList api ?w1] =>
    destruct (populatePlaylistList_keeps w1) as (-> & -> & _) end.
  simpl. rewrite overlays_app, toasts_app. simpl. now rewrite app_nil_r.
Qed.

(** X15. The deferred click ends in exactly one of two ways: one modal is
    opened and no toast is shown, or no modal is opened and exactly one
    error toast is shown, with one of the three messages of lines 387-394. *)
Theorem deferred_click_modal_or_one_error_toast (w : World Host) :
  (overlays (body (contextMenuClick api w)) = overlays (body w) ++ [next_node w]
   /\ toasts (body (contextMenuClick api w)) = toasts (body w))
  \/ (overlays (body (contextMenuClick api w)) = overlays (body w)
      /\ exists message,
           In message ["No song selected"; "Could not load song information";
                       "Error loading song information"]
           /\ toasts (body (contextMenuClick api w)) =
                toasts (body w) ++ [{| toast_text := message;
                                       toast_background := "#f44336";
                                       toast_transform := "translateX(300px)" |}]).
Proof.
  unfold contextMenuClick.
  destruct (JS.truthy (contextMenuSongId w)).
  - destruct (fromId api _ _ _) as [[[mediaItem|]|e] h].
    + set (w1 := called _ (set_host h w)).
      pose proof (showPlaylistSelector_document mediaItem w1) as Hdoc.
      destruct (resolve_songTitle mediaItem) as [songTitle|e].
      * destruct Hdoc as (Hret & Ho & Ht).
        destruct (showPlaylistSelector api mediaItem w1) as [[u|e] w2];
          [|discriminate]. left. simpl in *. auto.
      * destruct Hdoc as (Hret & Hb).
        destruct (showPlaylistSelector api mediaItem w1) as [[u|e'] w2];
          [discriminate|]. right. simpl in Hb.
        destruct (showNotification_document "Error loading song information" error w2)
          as (-> & ->).
        rewrite Hb. split; [reflexivity|]. eexists. split; [|reflexivity]. simpl. auto.
    + right.
      destruct (showNotification_document "Could not load song information" error
                  (called (MediaItemFromId (contextMenuSongId w) (contextMenuContentType w))
                     (set_host h w))) as (-> & ->).
      split; [reflexivity|]. eexists. split; [|reflexivity]. simpl. auto.
    + right.
      destruct (showNotification_document "Error loading song information" error
                  (called (MediaItemFromId (contextMenuSongId w) (contextMenuContentType w))
                     (set_host h w))) as (-> & ->).
      split; [reflexivity|]. eexists. split; [|reflexivity]. simpl. auto.
  - right.
    destruct (showNotification_document "No song selected" error w) as (-> & ->).
    split; [reflexivity|]. eexists. split; [|reflexivity]. simpl. auto.
Qed.

(** X16. With a captured identity, the three ways the resolution can fail
    and the toast each one gives: [MediaItem.fromId] resolves to nothing -
    'Could not load song information'; it throws, or the resolved song's
    [title()] rejects - 'Error loading song information'.  No modal is
    opened in any of them. *)
Theorem deferred_click_resolution_failures (w : World Host) :
  JS.truthy (contextMenuSongId w) = true ->
  (forall h,
     fromId api (contextMenuSongId w) (contextMenuContentType w) (host w) = (Return None, h) ->
     overlays (body (contextMenuClick api w)) = overlays (body w)
     /\ toasts (body (contextMenuClick api w)) =
          toasts (body w) ++ [{| toast_text := "Could not load song information";
                                 toast_background := "#f44336";
                                 toast_transform := "translateX(300px)" |}])
  /\ (forall e h,
        fromId api (contextMenuSongId w) (contextMenuContentType w) (host w) = (Throw e, h) ->
        overlays (body (contextMenuClick api w)) = overlays (body w)
        /\ toasts (body (contextMenuClick api w)) =
             toasts (body w) ++ [{| toast_text := "Error loading song information";
                                    toast_background := "#f44336";
                                    toast_transform := "translateX(300px)" |}])
  /\ (forall mediaItem e h,
        fromId api (contextMenuSongId w) (contextMenuContentType w) (host w)
          = (Return (Some mediaItem), h) ->
        item_title mediaItem = Some (Throw e) ->
        overlays (body (contextMenuClick api w)) = overlays (body w)
        /\ toasts (body (contextMenuClick api w)) =
             toasts (body w) ++ [{| toast_text := "Error loading song information";
                                    toast_background := "#f44336";
                                    toast_transform := "translateX(300px)" |}]).
Proof.
  intro Hid. unfold contextMenuClick. rewrite Hid. split; [|split].
  - intros h ->.
    destruct (showNotification_document "Could not load song information" error
                (called (MediaItemFromId (contextMenuSongId w) (contextMenuContentType w))
                   (set_host h w))) as (-> & ->). auto.
  - intros e h ->.
    destruct (showNotification_document "Error loading song information" error
                (called (MediaItemFromId (contextMenuSongId w) (contextMenuContentType w))
                   (set_host h w))) as (-> & ->). auto.
  - intros mediaItem e h -> Htitle.
    set (w1 := called _ (set_host h w)).
    pose proof (showPlaylistSelector_document mediaItem w1) as Hdoc.
    unfold resolve_songTitle in Hdoc. rewrite Htitle in Hdoc. destruct Hdoc as (Hret & Hb).
    destruct (showPlaylistSelector api mediaItem w1) as [[u|e'] w2]; [discriminate|].
    simpl in Hb.
    destruct (showNotification_document "Error loading song information" error w2)
      as (-> & ->).
    rewrite Hb. auto.
Qed.

(** ** Menu-open, click, wait *)

Lemma set_now_same (w : World Host) : set_now (now w) w = w.
Proof. now destruct w. Qed.

(** The timers the deferred click leaves are the ones it found plus, at
    most, those of one toast. *)
Lemma contextMenuClick_timers (w : World Host) :
  now (contextMenuClick api w) = now w
  /\ exists added,
       timers (contextMenuClick api w) = timers w ++ added
       /\ forall x, In x added -> (now w < fst x)%Z.
Proof.
  assert (Htoast : forall (message : string) (w0 w1 : World Host),
            frame 0 w0 w1 ->
            now (showNotification message error w1) = now w0
            /\ exists added,
                 timers (showNotification message error w1) = timers w0 ++ added
                 /\ forall x, In x added -> (now w0 < fst x)%Z).
  { intros message w0 w1 Hf. pose proof (frame_no_timer _ _ Hf) as Hq.
    destruct Hf as (_ & _ & Hn & _). rewrite showNotification_effect. simpl.
    rewrite Hn, Hq. split; [reflexivity|].
    exists [((now w0 + 50)%Z, SlideIn (next_node w1));
            ((now w0 + 3000)%Z, SlideOut (next_node w1))].
    split; [now rewrite <- app_assoc|].
    intros x [<-|[<-|[]]]; simpl; lia. }
  unfold contextMenuClick.
  destruct (JS.truthy (contextMenuSongId w)); [|apply Htoast, frame_refl].
  destruct (fromId api _ _ _) as [[[mediaItem|]|e] h];
    [|apply Htoast, frame_host_call|apply Htoast, frame_host_call].
  set (w1 := called _ (set_host h w)).
  assert (H1 : frame 0 w w1) by apply frame_host_call.
  pose proof (frame_showPlaylistSelector mediaItem w1) as H2.
  destruct (showPlaylistSelector api mediaItem w1) as [[u|e] w2]; simpl in H2.
  - pose proof (frame_trans 0 0 _ _ _ H1 H2) as H3.
    rewrite (frame_no_timer _ _ H3). destruct H3 as (_ & _ & -> & _).
    split; [reflexivity|]. exists []. rewrite app_nil_r. split; [reflexivity|]. intros x [].
  - apply Htoast. apply (frame_trans 0 0 _ _ _ H1 H2).
Qed.

(** With no other timer pending, 100 ms after a click the world is the one
    the deferred callback produces from the world the click left. *)
Lemma click_then_wait (w : World Host) :
  timers w = [] ->
  advance api (now w + 100) (onClick w) =
  contextMenuClick api (set_now (now w + 100) (called ContextMenuClose w)).
Proof.
  intro Hq.
  set (w0 := set_now (now w + 100) (called ContextMenuClose w)).
  assert (Hw0 : set_now (Z.max (now (onClick w)) (now w + 100)) (set_timers [] (onClick w))
                = w0).
  { unfold w0, onClick. destruct w. simpl in *. subst. unfold set_now, set_timers. simpl.
    f_equal. lia. }
  assert (Hrun : run_timers api (queue_weight (timers (onClick w))) (now w + 100) (onClick w)
                 = contextMenuClick api w0).
  { assert (Htimers : timers (onClick w) = [((now w + 100)%Z, ContextMenuClick)]).
    { unfold onClick. simpl. now rewrite Hq. }
    rewrite Htimers. change (queue_weight _) with 4.
    rewrite (run_timers_fire 3 (now w + 100) (now w + 100) ContextMenuClick [] (onClick w));
      [|now rewrite Htimers|lia].
    cbn [run_task]. rewrite Hw0. apply run_timers_idle.
    destruct (contextMenuClick_timers w0) as (_ & added & -> & Hadded).
    intros x Hx. apply in_app_or in Hx as [Hx|Hx].
    - unfold w0 in Hx. simpl in Hx. rewrite Hq in Hx. destruct Hx.
    - apply Hadded in Hx. unfold w0 in Hx. simpl in Hx. exact Hx. }
  unfold advance. rewrite Hrun.
  destruct (contextMenuClick_timers w0) as (Hnow & _).
  replace (Z.max (now (contextMenuClick api w0)) (now w + 100))
    with (now (contextMenuClick api w0)).
  - apply set_now_same.
  - rewrite Hnow. unfold w0. simpl. lia.
Qed.

(** X17. Menu-open, click, 100 ms: when the first item the collection
    yields has a truthy id, [MediaItem.fromId] is called exactly once, with
    the id and content type of that first item, whatever the later items
    and whatever was captured before; an album or playlist and a directly
    iterable collection behave alike. *)
Theorem menu_open_then_click_resolves_first_item (w : World Host)
  (mediaCollection : MediaCollection) (mediaItem : MediaRef)
  (others : list (result MediaRef)) :
  timers w = [] ->
  mediaCollection = WithMediaItems (Return (Return mediaItem :: others))
  \/ mediaCollection = Iterable (Return (Return mediaItem :: others)) ->
  JS.truthy (ref_id mediaItem) = true ->
  fromId_calls
    (calls (advance api (now w + 100) (onClick (onMediaItem mediaCollection w))))
  = fromId_calls (calls w) ++ [(ref_id mediaItem, ref_contentType mediaItem)].
Proof.
  intros Hq Hcoll Hid.
  set (w1 := onMediaItem mediaCollection w).
  assert (H1 : timers w1 = [] /\ now w1 = now w
               /\ contextMenuSongId w1 = ref_id mediaItem
               /\ contextMenuContentType w1 = ref_contentType mediaItem
               /\ calls w1 = calls w ++ [ButtonShow]).
  { unfold w1. destruct Hcoll as [-> | ->]; simpl; auto. }
  destruct H1 as (Hq1 & Hn1 & Hs1 & Hc1 & Hcalls1).
  rewrite <- Hn1, (click_then_wait w1 Hq1), contextMenuClick_fromId_calls.
  cbn [contextMenuSongId contextMenuContentType calls set_now called set_calls].
  rewrite Hs1, Hc1, Hid, Hcalls1, !fromId_calls_app. simpl. now rewrite !app_nil_r.
Qed.

(** X18. A menu-open event that yields no item (the payload is not an
    object, or the collection is empty) leaves the earlier capture in
    place: the button is shown all the same, and a click then resolves the
    identity captured by an earlier menu-open. *)
Theorem menu_open_without_item_keeps_earlier_capture (w : World Host)
  (mediaCollection : MediaCollection) :
  timers w = [] ->
  mediaCollection = NotAnObject
  \/ mediaCollection = WithMediaItems (Return [])
  \/ mediaCollection = Iterable (Return []) ->
  JS.truthy (contextMenuSongId w) = true ->
  calls (onMediaItem mediaCollection w) = calls w ++ [ButtonShow]
  /\ contextMenuSongId (onMediaItem mediaCollection w) = contextMenuSongId w
  /\ fromId_calls
       (calls (advance api (now w + 100) (onClick (onMediaItem mediaCollection w))))
     = fromId_calls (calls w) ++ [(contextMenuSongId w, contextMenuContentType w)].
Proof.
  intros Hq Hcoll Hid.
  set (w1 := onMediaItem mediaCollection w).
  assert (H1 : timers w1 = [] /\ now w1 = now w
               /\ contextMenuSongId w1 = contextMenuSongId w
               /\ contextMenuContentType w1 = contextMenuContentType w
               /\ calls w1 = calls w ++ [ButtonShow]).
  { unfold w1. destruct Hcoll as [-> | [-> | ->]]; simpl; auto. }
  destruct H1 as (Hq1 & Hn1 & Hs1 & Hc1 & Hcalls1).
  split; [exact Hcalls1|]. split; [exact Hs1|].
  rewrite <- Hn1, (click_then_wait w1 Hq1), contextMenuClick_fromId_calls.
  cbn [contextMenuSongId contextMenuContentType calls set_now called set_calls].
  rewrite Hs1, Hc1, Hid, Hcalls1, !fromId_calls_app. simpl. now rewrite !app_nil_r.
Qed.

(** X19. A menu-open event whose extraction throws ([mediaItems()] or the
    iteration throws, or the first item does) resets the identifier to null
    and keeps the content type; the button is shown all the same, and a
    click then gives the one toast 'No song selected' without any
    resolution call. *)
Theorem menu_open_error_then_click (w : World Host) (mediaCollection : MediaCollection)
  (e : string) (others : list (result MediaRef)) :
  timers w = [] ->
  mediaCollection = WithMediaItems (Throw e)
  \/ mediaCollection = Iterable (Throw e)
  \/ mediaCollection = WithMediaItems (Return (Throw e :: others))
  \/ mediaCollection = Iterable (Return (Throw e :: others)) ->
  contextMenuSongId (onMediaItem mediaCollection w) = JS.Null
  /\ contextMenuContentType (onMediaItem mediaCollection w) = contextMenuContentType w
  /\ calls (onMediaItem mediaCollection w) = calls w ++ [ButtonShow]
  /\ toasts (body (advance api (now w + 100) (onClick (onMediaItem mediaCollection w))))
     = toasts (body w) ++ [{| toast_text := "No song selected";
                              toast_background := "#f44336";
                              toast_transform := "translateX(300px)" |}]
  /\ fromId_calls
       (calls (advance api (now w + 100) (onClick (onMediaItem mediaCollection w))))
     = fromId_calls (calls w).
Proof.
  intros Hq Hcoll.
  set (w1 := onMediaItem mediaCollection w).
  assert (H1 : timers w1 = [] /\ now w1 = now w
               /\ contextMenuSongId w1 = JS.Null
               /\ contextMenuContentType w1 = contextMenuContentType w
               /\ calls w1 = calls w ++ [ButtonShow]
               /\ body w1 = body w).
  { unfold w1. destruct Hcoll as [-> | [-> | [-> | ->]]]; simpl; auto 10. }
  destruct H1 as (Hq1 & Hn1 & Hs1 & Hc1 & Hcalls1 & Hb1).
  split; [exact Hs1|]. split; [exact Hc1|]. split; [exact Hcalls1|].
  rewrite <- Hn1, (click_then_wait w1 Hq1). split.
  - unfold contextMenuClick. cbn [contextMenuSongId set_now called set_calls].
    rewrite Hs1. cbn [JS.truthy].
    destruct (showNotification_document "No song selected" error
                (set_now (now w1 + 100) (called ContextMenuClose w1))) as (-> & _).
    cbn [body set_now called set_calls background_of]. now rewrite Hb1.
  - rewrite contextMenuClick_fromId_calls.
    cbn [contextMenuSongId contextMenuContentType calls set_now called set_calls].
    rewrite Hs1, Hcalls1, !fromId_calls_app. simpl. now rewrite !app_nil_r.
Qed.

(** X20. Nothing but the menu close happens before the 100 ms have passed:
    with no other timer pending, at any earlier time the only host call is
    'contextMenu/CLOSE', the document is unchanged and the deferred callback
    is still pending. *)
Theorem click_is_deferred (w : World Host) (t : Z) :
  timers w = [] ->
  (t < now w + 100)%Z ->
  calls (advance api t (onClick w)) = calls w ++ [ContextMenuClose]
  /\ body (advance api t (onClick w)) = body w
  /\ timers (advance api t (onClick w)) = [((now w + 100)%Z, ContextMenuClick)].
Proof.
  intros Hq Ht. unfold advance.
  rewrite run_timers_idle.
  - unfold onClick. simpl. now rewrite Hq.
  - unfold onClick. simpl. rewrite Hq. intros x [<-|[]]. simpl. lia.
Qed.

(** ** The life of a toast *)

Lemma pending_app (n : nat) (q1 q2 : list (Z * Task)) :
  pending n (q1 ++ q2) = pending n q1 ++ pending n q2.
Proof. unfold pending. apply filter_app. Qed.

Lemma pending_perm (n : nat) (q q' : list (Z * Task)) :
  Permutation q q' -> Permutation (pending n q) (pending n q').
Proof.
  unfold pending. induction 1 as [|x l l' Hp IH|x y l|l l' l'' H1 IH1 H2 IH2]; simpl.
  - constructor.
  - destruct (targets n x); [now constructor|assumption].
  - destruct (targets n x), (targets n y); try reflexivity. apply perm_swap.
  - now transitivity (filter (targets n) l').
Qed.

Lemma pending_none (n : nat) (q : list (Z * Task)) :
  (forall x, In x q -> targets n x = false) -> pending n q = [].
Proof. apply filter_none. Qed.

Lemma node_at_app (n : nat) (b1 b2 : list (nat * Node)) (node : Node) :
  node_at n b1 = Some node -> node_at n (b1 ++ b2) = Some node.
Proof.
  induction b1 as [|[m nd] b1 IH]; simpl; intro H; [discriminate|].
  destruct (Nat.eqb m n); [exact H|now apply IH].
Qed.

Lemma node_at_fresh (n : nat) (b : list (nat * Node)) (node : Node) :
  ~ In n (map fst b) -> node_at n (b ++ [(n, node)]) = Some node.
Proof.
  induction b as [|[m nd] b IH]; simpl; intro H.
  - now rewrite Nat.eqb_refl.
  - destruct (Nat.eqb_spec m n) as [->|Hne]; [tauto|]. apply IH. tauto.
Qed.

Lemma node_at_map (f : nat * Node -> nat * Node) (n : nat) (b : list (nat * Node))
  (node : Node) :
  (forall x, fst (f x) = fst x) ->
  f (n, node) = (n, node) ->
  node_at n b = Some node ->
  node_at n (map f b) = Some node.
Proof.
  intros Hfst Hfix. induction b as [|[m nd] b IH]; simpl; intro H; [discriminate|].
  destruct (Nat.eqb_spec m n) as [->|Hne].
  - injection H as ->. rewrite Hfix. simpl. now rewrite Nat.eqb_refl.
  - specialize (Hfst (m, nd)). destruct (f (m, nd)) as [m' nd']. simpl in *. subst m'.
    destruct (Nat.eqb_spec m n); [contradiction|]. now apply IH.
Qed.

Lemma node_at_set_innerHTML (n c : nat) (html : Html) (t : Toast) (w : World Host) :
  node_at n (body w) = Some (ToastNode t) ->
  node_at n (body (set_innerHTML c html w)) = Some (ToastNode t).
Proof.
  intro H. simpl. apply node_at_map; [|reflexivity|exact H].
  intros [m [t'|md]]; [reflexivity|]. now destruct (Nat.eqb m c).
Qed.

Lemma node_at_set_transform_other (n m : nat) (v : string) (node : Node) (w : World Host) :
  m <> n ->
  node_at n (body w) = Some node ->
  node_at n (body (set_transform m v w)) = Some node.
Proof.
  intros Hne H. simpl. apply node_at_map; [| |exact H].
  - intros [k [t'|md]]; [|reflexivity]. now destruct (Nat.eqb k m).
  - destruct node as [t'|md]; [|reflexivity].
    destruct (Nat.eqb_spec n m); [congruence|reflexivity].
Qed.

Lemma node_at_set_transform (n : nat) (v : string) (t : Toast) (w : World Host) :
  node_at n (body w) = Some (ToastNode t) ->
  node_at n (body (set_transform n v w)) =
  Some (ToastNode {| toast_text := toast_text t;
                     toast_background := toast_background t;
                     toast_transform := v |}).
Proof.
  simpl. generalize (body w) as b.
  induction b as [|[m nd] b IH]; simpl; intro H; [discriminate|].
  destruct (Nat.eqb_spec m n) as [->|Hne].
  - injection H as ->. rewrite ?Nat.eqb_refl. simpl. now rewrite ?Nat.eqb_refl.
  - destruct nd as [t0|md]; simpl;
      (destruct (Nat.eqb_spec m n); [contradiction|]); now apply IH.
Qed.

Lemma node_at_removeChild_other (n m : nat) (node : Node) (w : World Host) :
  m <> n ->
  node_at n (body w) = Some node ->
  node_at n (body (removeChild m w)) = Some node.
Proof.
  intros Hne. simpl. generalize (body w) as b.
  induction b as [|[k nd] b IH]; simpl; intro H; [discriminate|].
  destruct (Nat.eqb_spec k m) as [->|Hkm]; simpl.
  - destruct (Nat.eqb_spec m n); [contradiction|]. now apply IH.
  - destruct (Nat.eqb k n); [exact H|now apply IH].
Qed.

Lemma node_at_populatePlaylistList (n : nat) (t : Toast) (w : World Host) :
  node_at n (body w) = Some (ToastNode t) ->
  node_at n (body (populatePlaylistList api w)) = Some (ToastNode t).
Proof.
  intro H. pose proof (populatePlaylistList_body w) as Hb.
  destruct (find_playlist_list (body w)) as [c|].
  - destruct Hb as (html & ->). now apply node_at_set_innerHTML.
  - now rewrite Hb.
Qed.

Lemma node_at_showPlaylistSelector (n : nat) (t : Toast) (song : MediaItem) (w : World Host) :
  node_at n (body w) = Some (ToastNode t) ->
  node_at n (body (snd (showPlaylistSelector api song w))) = Some (ToastNode t).
Proof.
  intro H. unfold showPlaylistSelector, createElement. simpl.
  destruct (resolve_songTitle song); simpl; [|exact H].
  apply node_at_populatePlaylistList. simpl. now apply node_at_app.
Qed.

Lemma node_at_showNotification (n : nat) (node : Node) (message : string) (type : Severity)
  (w : World Host) :
  node_at n (body w) = Some node ->
  node_at n (body (showNotification message type w)) = Some node.
Proof. intro H. rewrite showNotification_effect. simpl. now apply node_at_app. Qed.

Lemma node_at_contextMenuClick (n : nat) (t : Toast) (w : World Host) :
  node_at n (body w) = Some (ToastNode t) ->
  node_at n (body (contextMenuClick api w)) = Some (ToastNode t).
Proof.
  intro H. unfold contextMenuClick.
  destruct (JS.truthy (contextMenuSongId w)); [|now apply node_at_showNotification].
  destruct (fromId api _ _ _) as [[[mediaItem|]|e] h];
    [|now apply node_at_showNotification|now apply node_at_showNotification].
  set (w1 := called _ (set_host h w)).
  pose proof (node_at_showPlaylistSelector n t mediaItem w1 H) as H2.
  destruct (showPlaylistSelector api mediaItem w1) as [[u|e] w2]; simpl in H2;
    [exact H2|now apply node_at_showNotification].
Qed.

(** A callback that does not act on [n] leaves the toast [n] as it is. *)
Lemma node_at_run_task (n : nat) (t : Toast) (task : Task) (w : World Host) :
  task_target task <> Some n ->
  node_at n (body w) = Some (ToastNode t) ->
  node_at n (body (run_task api task w)) = Some (ToastNode t).
Proof.
  intros Htarget H. destruct task as [m|m|m|]; simpl in *.
  - apply node_at_set_transform_other; [congruence|exact H].
  - apply node_at_set_transform_other; [congruence|exact H].
  - destruct (has_parent m w); [|exact H].
    apply node_at_removeChild_other; [congruence|exact H].
  - now apply node_at_contextMenuClick.
Qed.

(** The timers the deferred click adds act on elements created after it
    started. *)
Lemma contextMenuClick_new_targets (w : World Host) :
  exists added,
    timers (contextMenuClick api w) = timers w ++ added
    /\ forall x, In x added -> exists k, task_target (snd x) = Some k /\ next_node w <= k.
Proof.
  assert (Htoast : forall (message : string) (w0 w1 : World Host),
            frame 0 w0 w1 ->
            exists added,
              timers (showNotification message error w1) = timers w0 ++ added
              /\ forall x, In x added ->
                   exists k, task_target (snd x) = Some k /\ next_node w0 <= k).
  { intros message w0 w1 Hf. pose proof (frame_no_timer _ _ Hf) as Hq.
    destruct Hf as (_ & _ & _ & Hn & _). rewrite showNotification_effect. simpl.
    rewrite Hq. eexists. split; [now rewrite <- app_assoc|].
    intros x [<-|[<-|[]]]; simpl; eauto. }
  unfold contextMenuClick.
  destruct (JS.truthy (contextMenuSongId w)); [|apply Htoast, frame_refl].
  destruct (fromId api _ _ _) as [[[mediaItem|]|e] h];
    [|apply Htoast, frame_host_call|apply Htoast, frame_host_call].
  set (w1 := called _ (set_host h w)).
  assert (H1 : frame 0 w w1) by apply frame_host_call.
  pose proof (frame_showPlaylistSelector mediaItem w1) as H2.
  destruct (showPlaylistSelector api mediaItem w1) as [[u|e] w2]; simpl in H2.
  - rewrite (frame_no_timer _ _ (frame_trans 0 0 _ _ _ H1 H2)).
    exists []. rewrite app_nil_r. split; [reflexivity|]. intros x [].
  - apply Htoast. apply (frame_trans 0 0 _ _ _ H1 H2).
Qed.

Lemma run_task_pending (n : nat) (task : Task) (w : World Host) :
  n < next_node w ->
  task_target task <> Some n ->
  pending n (timers (run_task api task w)) = pending n (timers w).
Proof.
  intros Hn Htarget.
  assert (Hadd : forall added,
            (forall x, In x added -> targets n x = false) ->
            pending n (timers w ++ added) = pending n (timers w)).
  { intros added H. now rewrite pending_app, (pending_none n added H), app_nil_r. }
  destruct task as [m|m|m|]; simpl in *.
  - reflexivity.
  - apply Hadd. intros x [<-|[]]. unfold targets. simpl.
    destruct (Nat.eqb_spec m n); [congruence|reflexivity].
  - now destruct (has_parent m w).
  - destruct (contextMenuClick_new_targets w) as (added & -> & Hnew).
    apply Hadd. intros x Hx. destruct (Hnew x Hx) as (k & Hk & Hle).
    unfold targets. rewrite Hk. destruct (Nat.eqb_spec k n); [lia|reflexivity].
Qed.

Lemma option_eq_dec_target (task : Task) (n : nat) :
  {task_target task = Some n} + {task_target task <> Some n}.
Proof.
  destruct (task_target task) as [m|]; [|right; discriminate].
  destruct (Nat.eq_dec m n) as [->|Hne]; [now left|right; congruence].
Qed.

Lemma toast_phase_step (n : nat) (message : string) (type : Severity) (t0 t : Z)
  (w : World Host) (due : Z) (task : Task) (rest : list (Z * Task)) :
  toast_phase n message type t0 t w ->
  extract_earliest (timers w) = Some ((due, task), rest) ->
  (due <= t)%Z ->
  toast_phase n message type t0 t
    (run_task api task (set_now (Z.max (now w) due) (set_timers rest w))).
Proof.
  intros [Hn Hphase] Hq Hdue.
  set (w0 := set_now (Z.max (now w) due) (set_timers rest w)).
  pose proof (extract_earliest_perm _ _ _ Hq) as Hperm.
  pose proof (extract_earliest_least _ _ _ Hq) as Hleast.
  pose proof (pending_perm n _ _ Hperm) as Hpend.
  destruct (frame_run_task task w0) as (_ & _ & Hnow & Hnext & _).
  assert (Hn' : n < next_node (run_task api task w0)) by (simpl in Hnext; lia).
  split; [exact Hn'|].
  assert (Hin : forall x, In x (pending n (timers w)) -> In x (timers w)).
  { intros x Hx. unfold pending in Hx. now apply filter_In in Hx. }
  destruct (option_eq_dec_target task n) as [Hmine|Hother].
  - (* the callback acts on [n] *)
    assert (Hhead : pending n ((due, task) :: rest) = (due, task) :: pending n rest).
    { unfold pending, targets. simpl. rewrite Hmine, Nat.eqb_refl. reflexivity. }
    rewrite Hhead in Hpend.
    destruct Hphase as [(Hp & Hnode & Hclock) | [(Hp & Hnode & Hclock & Ht)
                       | [(Hp & Hnode & Ht) | Ht]]].
    + (* waiting to slide in: the slide-in is the one that fires *)
      assert (Hfired : (due, task) = ((t0 + 50)%Z, SlideIn n)).
      { assert (H1 : In (due, task)
                       [((t0 + 50)%Z, SlideIn n); ((t0 + 3000)%Z, SlideOut n)]).
        { apply (Permutation_in _ Hp), (Permutation_in _ (Permutation_sym Hpend)).
          now left. }
        destruct H1 as [H1|[H1|[]]]; [now symmetry|].
        injection H1 as <- <-.
        assert (H2 : In ((t0 + 50)%Z, SlideIn n) (timers w)).
        { apply Hin, (Permutation_in _ (Permutation_sym Hp)). now left. }
        apply Hleast in H2. simpl in H2. lia. }
      injection Hfired as -> ->.
      right. left.
      assert (Hrest : pending n rest = [((t0 + 3000)%Z, SlideOut n)]).
      { apply Permutation_length_1_inv.
        apply (Permutation_cons_inv (a := ((t0 + 50)%Z, SlideIn n))).
        symmetry. now rewrite <- Hpend. }
      repeat split.
      * exact Hrest.
      * unfold toast_node in *.
        exact (node_at_set_transform n "translateX(0)" _ w0 Hnode).
      * simpl. lia.
      * exact Hdue.
    + (* shown: the slide-out fires *)
      rewrite Hp in Hpend. apply Permutation_length_1_inv in Hpend.
      injection Hpend as -> -> Hrest.
      right. right. left. repeat split.
      * simpl. rewrite pending_app, Hrest. unfold pending, targets. simpl.
        rewrite Nat.eqb_refl. do 2 f_equal. lia.
      * unfold toast_node in *.
        exact (node_at_set_transform n "translateX(300px)" _ w0 Hnode).
      * exact Hdue.
    + (* sliding out: the removal fires *)
      rewrite Hp in Hpend. apply Permutation_length_1_inv in Hpend.
      injection Hpend as -> -> Hrest. right. right. right. exact Hdue.
    + right. right. right. exact Ht.
  - (* another callback *)
    assert (Htail : pending n ((due, task) :: rest) = pending n rest).
    { unfold pending, targets. simpl.
      destruct (task_target task) as [m|]; [|reflexivity].
      destruct (Nat.eqb_spec m n); [congruence|reflexivity]. }
    rewrite Htail in Hpend.
    assert (Hkeep : pending n (timers (run_task api task w0)) = pending n rest).
    { now rewrite (run_task_pending n task w0 Hn Hother). }
    assert (Hclock : forall d k, In (d, k) (pending n (timers w)) ->
                                 (now w <= d)%Z -> (now (run_task api task w0) <= d)%Z).
    { intros d k Hd Hle. rewrite Hnow. simpl.
      apply Hin, Hleast in Hd. simpl in Hd. lia. }
    destruct Hphase as [(Hp & Hnode & Hc) | [(Hp & Hnode & Hc & Ht)
                       | [(Hp & Hnode & Ht) | Ht]]].
    + left. repeat split.
      * rewrite Hkeep. now rewrite <- Hpend.
      * now apply node_at_run_task.
      * apply (Hclock _ (SlideOut n)); [|exact Hc].
        apply (Permutation_in _ (Permutation_sym Hp)). right. now left.
    + right. left. repeat split.
      * rewrite Hkeep. apply Permutation_length_1_inv. symmetry. now rewrite <- Hp.
      * now apply node_at_run_task.
      * apply (Hclock _ (SlideOut n)); [|exact Hc]. rewrite Hp. now left.
      * exact Ht.
    + right. right. left. repeat split.
      * rewrite Hkeep. apply Permutation_length_1_inv. symmetry. now rewrite <- Hp.
      * now apply node_at_run_task.
      * exact Ht.
    + right. right. right. exact Ht.
Qed.

Lemma toast_phase_run_timers (n : nat) (message : string) (type : Severity) (t0 t : Z) :
  forall (fuel : nat) (w : World Host),
    toast_phase n message type t0 t w ->
    toast_phase n message type t0 t (run_timers api fuel t w).
Proof.
  induction fuel as [|fuel IH]; intros w H; simpl; [assumption|].
  destruct (extract_earliest (timers w)) as [[[due task] rest]|] eqn:Hq; [|assumption].
  destruct (Z.leb_spec due t) as [Hdue|Hdue]; [|assumption].
  apply IH. now apply toast_phase_step.
Qed.

(** X21. The life of a toast whose element identity is not in use: from
    its creation at time [now] until just before [now] + 3200 ms it is in
    the document with its message and colour; it is off-screen
    ('translateX(300px)') before [now] + 50 ms, in place ('translateX(0)')
    from then until just before [now] + 3000 ms, and off-screen again from
    then on, whatever other timers fire in between. *)
Theorem toast_lifecycle (message : string) (type : Severity) (w : World Host) (t : Z) :
  ~ In (next_node w) (map fst (body w)) ->
  (forall x, In x (timers w) -> targets (next_node w) x = false) ->
  (t < now w + 3200)%Z ->
  node_at (next_node w) (body (advance api t (showNotification message type w))) =
  Some (ToastNode
          {| toast_text := message;
             toast_background := background_of type;
             toast_transform :=
               if ((now w + 50 <=? t) && (t <? now w + 3000))%Z
               then "translateX(0)" else "translateX(300px)" |}).
Proof.
  intros Hfresh Hunused Ht.
  set (n := next_node w). set (w1 := showNotification message type w).
  assert (Hstart : toast_phase n message type (now w) t w1).
  { unfold w1. rewrite showNotification_effect. split; [simpl; lia|]. left. simpl.
    repeat split.
    - rewrite <- app_assoc, pending_app, (pending_none n _ Hunused). simpl.
      unfold pending, targets. simpl. fold n. rewrite Nat.eqb_refl. reflexivity.
    - now apply node_at_fresh.
    - lia. }
  pose proof (toast_phase_run_timers n message type (now w) t
                (queue_weight (timers w1)) w1 Hstart) as [_ Hphase].
  pose proof (run_timers_complete t (queue_weight (timers w1)) w1 (le_n _)) as Hdone.
  assert (Hleft : forall x,
            In x (pending n (timers (run_timers api (queue_weight (timers w1)) t w1))) ->
            (t < fst x)%Z).
  { intros x Hx. apply Hdone. unfold pending in Hx. now apply filter_In in Hx. }
  unfold advance. cbn [body set_now]. unfold toast_node in Hphase.
  destruct Hphase as [(Hp & Hnode & _) | [(Hp & Hnode & _ & Hlate)
                     | [(Hp & Hnode & Hlate) | Hlate]]].
  - assert (H50 : (t < now w + 50)%Z).
    { apply (Hleft ((now w + 50)%Z, SlideIn n)).
      apply (Permutation_in _ (Permutation_sym Hp)). now left. }
    rewrite Hnode. destruct (Z.leb_spec (now w + 50) t); [lia|reflexivity].
  - assert (H3000 : (t < now w + 3000)%Z).
    { apply (Hleft ((now w + 3000)%Z, SlideOut n)). rewrite Hp. now left. }
    rewrite Hnode.
    destruct (Z.leb_spec (now w + 50) t); [|lia].
    destruct (Z.ltb_spec t (now w + 3000)); [reflexivity|lia].
  - rewrite Hnode.
    destruct (Z.ltb_spec t (now w + 3000)); [lia|]. now rewrite Bool.andb_false_r.
  - lia.
Qed.

(** ** The buttons of the modal *)

Lemma addToSelectedPlaylists_body (song : MediaItem) (ids : list string) (w : World Host) :
  exists extra,
    body (addToSelectedPlaylists api song ids w) = body w ++ extra
    /\ (extra = [] \/ exists message, extra = [(next_node w, new_toast message error)]).
Proof.
  assert (Htoast : forall message,
            exists extra,
              body (showNotification message error w) = body w ++ extra
              /\ (extra = [] \/ exists message, extra = [(next_node w, new_toast message error)])).
  { intro message. eexists. split; [reflexivity|]. right. now exists message. }
  unfold addToSelectedPlaylists.
  destruct (List.length ids =? 0)%nat; [apply Htoast|].
  destruct (resolve_songTitle song) as [songTitle|e]; [|apply Htoast].
  destruct (add_loop_spec song ids 0 0 w) as (w1 & -> & _ & Hb & Hn & _).
  destruct (0 <? _)%nat.
  - rewrite showNotification_effect. simpl. rewrite Hb, Hn.
    eexists. split; [reflexivity|]. right. eexists. reflexivity.
  - exists []. rewrite app_nil_r. auto.
Qed.

Lemma removeChild_document (overlay : nat) (w : World Host) :
  (forall t, ~ In (overlay, ToastNode t) (body w)) ->
  ~ In overlay (map fst (body (removeChild overlay w)))
  /\ toasts (body (removeChild overlay w)) = toasts (body w)
  /\ overlays (body (removeChild overlay w)) =
       filter (fun n => negb (Nat.eqb n overlay)) (overlays (body w)).
Proof.
  intro Hmodal. simpl. split; [|split].
  - intro H. apply in_map_iff in H as (x & Hx & Hin).
    apply filter_In in Hin as [_ Hne]. rewrite Hx, Nat.eqb_refl in Hne. discriminate.
  - revert Hmodal. generalize (body w) as b.
    induction b as [|[m [t|md]] b IH]; intro H; simpl; [reflexivity| |].
    + destruct (Nat.eqb_spec m overlay) as [->|Hne]; simpl.
      * exfalso. apply (H t). now left.
      * unfold toasts in *. simpl. f_equal. apply IH.
        intros t' Ht'. apply (H t'). now right.
    + destruct (Nat.eqb_spec m overlay); simpl; apply IH;
        intros t' Ht'; apply (H t'); now right.
  - generalize (body w) as b. induction b as [|[m [t|md]] b IH]; simpl; [reflexivity| |].
    + destruct (Nat.eqb m overlay); simpl; exact IH.
    + unfold overlays in *. simpl.
      destruct (Nat.eqb m overlay); simpl; [exact IH|now rewrite IH].
Qed.

(** X22. Clicking Add dismisses the modal whatever the batch does: the
    overlay leaves the document, and what the batch did stays - the same
    host calls, and the same toasts, as [addToSelectedPlaylists] alone.
    The overlay is an element created earlier that is not a toast. *)
Theorem add_click_dismisses_and_keeps_outcome (song : MediaItem) (overlay : nat)
  (ids : list string) (w : World Host) :
  overlay < next_node w ->
  (forall t, ~ In (overlay, ToastNode t) (body w)) ->
  ~ In overlay (map fst (body (add_click api song overlay ids w)))
  /\ overlays (body (add_click api song overlay ids w)) =
       filter (fun n => negb (Nat.eqb n overlay)) (overlays (body w))
  /\ toasts (body (add_click api song overlay ids w)) =
       toasts (body (addToSelectedPlaylists api song ids w))
  /\ calls (add_click api song overlay ids w) =
       calls (addToSelectedPlaylists api song ids w).
Proof.
  intros Hold Hmodal. unfold add_click.
  destruct (addToSelectedPlaylists_body song ids w) as (extra & Hb & Hextra).
  assert (Hmodal' : forall t,
            ~ In (overlay, ToastNode t) (body (addToSelectedPlaylists api song ids w))).
  { intros t Ht. rewrite Hb in Ht. apply in_app_or in Ht as [Ht|Ht]; [now apply (Hmodal t)|].
    destruct Hextra as [-> | (message & ->)]; [destruct Ht|].
    destruct Ht as [Ht|[]]. injection Ht as Ht _. lia. }
  destruct (removeChild_document overlay _ Hmodal') as (Hgone & Ht & Ho).
  split; [exact Hgone|]. split; [|split; [exact Ht|reflexivity]].
  rewrite Ho, Hb, overlays_app.
  destruct Hextra as [-> | (message & ->)]; simpl; now rewrite app_nil_r.
Qed.

(** X23. Cancel, and a click on the overlay itself, close that modal and do
    nothing else: toasts, timers and host calls stay, other modals stay; a
    click that reaches the overlay from inside the modal changes nothing. *)
Theorem dismissal_has_no_side_effect (overlay : nat) (w : World Host) :
  (forall t, ~ In (overlay, ToastNode t) (body w)) ->
  overlay_click true overlay w = cancel_click overlay w
  /\ overlay_click false overlay w = w
  /\ ~ In overlay (map fst (body (cancel_click overlay w)))
  /\ overlays (body (cancel_click overlay w)) =
       filter (fun n => negb (Nat.eqb n overlay)) (overlays (body w))
  /\ toasts (body (cancel_click overlay w)) = toasts (body w)
  /\ timers (cancel_click overlay w) = timers w
  /\ calls (cancel_click overlay w) = calls w.
Proof.
  intro Hmodal. unfold cancel_click.
  destruct (removeChild_document overlay w Hmodal) as (Hgone & Ht & Ho).
  repeat split; assumption.
Qed.

(** ** From the menu to the batch *)

Lemma redux_html_owned (state : State) :
  filter (isCurrentUserPlaylist (currentUserId_of state)) (map snd (playlists_of state)) <> [] ->
  exists rows,
    redux_html state = Labels rows
    /\ Forall2 (fun playlist row => redux_row playlist = Return row)
         (filter (isCurrentUserPlaylist (currentUserId_of state))
            (map snd (playlists_of state))) rows.
Proof.
  intro Hsome.
  destruct (owned_rows (currentUserId_of state) (map snd (playlists_of state)))
    as (rows & Hrows & Hall).
  exists rows. split; [|exact Hall]. unfold redux_html.
  destruct (playlists_of state) as [|x l] eqn:Hp; [now simpl in Hsome|].
  change (List.length (x :: l) =? 0)%nat with false. cbv iota. rewrite Hrows.
  destruct (filter _ (map snd (x :: l))) as [|y ys]; [congruence|reflexivity].
Qed.

Lemma no_modal_open (b : list (nat * Node)) (n : nat) (m : Modal) :
  find_playlist_list b = None ->
  overlays b = []
  /\ find_playlist_list (b ++ [(n, OverlayNode m)]) = Some n
  /\ container_html (b ++ [(n, OverlayNode m)]) = Some (playlist_list m).
Proof.
  induction b as [|[k [t|md]] b IH]; simpl; intro H; [auto| |discriminate].
  destruct (IH H) as (Ho & Hf & Hc). unfold overlays in *. simpl. auto.
Qed.

Lemma body_without (n : nat) (b : list (nat * Node)) (f : nat * Node -> nat * Node) :
  ~ In n (map fst b) ->
  (forall x, fst x <> n -> f x = x) ->
  map f b = b /\ filter (fun x => negb (Nat.eqb (fst x) n)) b = b.
Proof.
  intros Hfresh Hf. induction b as [|x b IH]; simpl; [auto|].
  simpl in Hfresh. destruct IH as [-> ->]; [tauto|].
  rewrite Hf by tauto. destruct (Nat.eqb_spec (fst x) n); [tauto|auto].
Qed.

(** X24. From the menu to the batch, on a host without the playlist query
    methods: the menu opens on a collection whose first item has a truthy
    id, the button is clicked, 100 ms pass; [MediaItem.fromId] delivers a
    song whose title resolves and the snapshot holds playlists of the
    current user.  Then one modal is open and it lists exactly the owned
    playlists, in snapshot order.  Clicking Add with a non-empty selection
    whose commands all return issues one add command per selected id, in
    order, closes the modal and shows no toast. *)
Theorem menu_click_select_add (w : World Host) (mediaItem : MediaRef)
  (others : list (result MediaRef)) (song : MediaItem) (h1 : Host)
  (songTitle : string) (state : State) (ids : list string) :
  timers w = [] ->
  find_playlist_list (body w) = None ->
  ~ In (next_node w) (map fst (body w)) ->
  JS.truthy (ref_id mediaItem) = true ->
  fromId api (ref_id mediaItem) (ref_contentType mediaItem) (host w)
    = (Return (Some song), h1) ->
  resolve_songTitle song = Return songTitle ->
  playlist_query api = None ->
  getState api h1 = Return state ->
  filter (isCurrentUserPlaylist (currentUserId_of state)) (map snd (playlists_of state)) <> [] ->
  ids <> [] ->
  (forall r, In r (add_outcomes api song ids h1) -> succeeded r = true) ->
  let opened :=
    advance api (now w + 100)
      (onClick (onMediaItem (Iterable (Return (Return mediaItem :: others))) w)) in
  let closed := add_click api song (next_node w) ids opened in
  overlays (body opened) = [next_node w]
  /\ Forall2 (fun playlist row => redux_row playlist = Return row)
       (filter (isCurrentUserPlaylist (currentUserId_of state))
          (map snd (playlists_of state)))
       (surfaced opened)
  /\ add_commands (calls closed) = add_commands (calls w) ++ map (add_action song) ids
  /\ overlays (body closed) = []
  /\ toasts (body closed) = toasts (body w).
Proof.
  intros Hq Hnone Hfresh Hid Hfrom Htitle Hquery Hstate Howned Hids Hok opened closed.
  set (n := next_node w) in *.
  set (modal := {| modal_songTitle := songTitle;
                   modal_songArtist := resolve_songArtist song;
                   playlist_list := redux_html state |}).
  destruct (no_modal_open (body w) n
              {| modal_songTitle := songTitle;
                 modal_songArtist := resolve_songArtist song;
                 playlist_list := Labels [] |} Hnone) as (Hno & Hfind & _).
  assert (Hopened : body opened = body w ++ [(n, OverlayNode modal)]
                    /\ host opened = h1
                    /\ calls opened =
                         calls w ++ [ButtonShow; ContextMenuClose;
                                     MediaItemFromId (ref_id mediaItem)
                                       (ref_contentType mediaItem)]).
  { unfold opened.
    set (w1 := onMediaItem (Iterable (Return (Return mediaItem :: others))) w).
    change (now w + 100)%Z with (now w1 + 100)%Z.
    rewrite (click_then_wait w1) by exact Hq.
    unfold contextMenuClick.
    cbn [contextMenuSongId contextMenuContentType host set_now called set_calls w1
         onMediaItem capture_first set_contextMenuContentType set_contextMenuSongId].
    rewrite Hid, Hfrom.
    unfold showPlaylistSelector, createElement. rewrite Htitle.
    cbn [fst snd].
    match goal with |- context [populatePlaylistList api ?x] => set (wA := x) end.
    assert (HbA : body wA = body w ++ [(n, OverlayNode
                                             {| modal_songTitle := songTitle;
                                                modal_songArtist := resolve_songArtist song;
                                                playlist_list := Labels [] |})])
      by reflexivity.
    assert (HfA : find_playlist_list (body wA) = Some n) by (rewrite HbA; exact Hfind).
    rewrite (populatePlaylistList_cases wA n HfA), Hquery.
    unfold populatePlaylistListFromRedux. rewrite HfA.
    change (host wA) with h1. rewrite Hstate.
    split; [|split].
    - cbn [body set_innerHTML set_body]. rewrite HbA, map_app.
      match goal with |- context [map ?f (body w)] =>
        destruct (body_without n (body w) f Hfresh) as [-> _] end.
      + intros [k [t|md]] Hk; [reflexivity|]. simpl in Hk.
        destruct (Nat.eqb_spec k n); [contradiction|reflexivity].
      + simpl. now rewrite Nat.eqb_refl.
    - reflexivity.
    - cbn [calls set_innerHTML set_body wA appendChild set_next_node called set_calls
           set_host set_now w1 onMediaItem capture_first set_contextMenuContentType
           set_contextMenuSongId].
      now rewrite <- !app_assoc. }
  destruct Hopened as (Hb & Hh & Hc).
  destruct (redux_html_owned state Howned) as (rows & Hrows & Hall).
  destruct (no_modal_open (body w) n modal Hnone) as (_ & _ & Hcontainer).
  split; [|split].
  - rewrite Hb, overlays_app, Hno. reflexivity.
  - unfold surfaced. rewrite Hb, Hcontainer. unfold modal. simpl. rewrite Hrows. exact Hall.
  - destruct (addToSelectedPlaylists_batch song ids songTitle opened Hids Htitle)
      as (w2 & _ & Hc2 & Hb2 & _ & _ & Heq).
    rewrite Hh in Heq. rewrite (count_failed_zero _ Hok) in Heq. simpl in Heq.
    unfold closed, add_click. rewrite Heq.
    cbn [calls body removeChild set_body]. rewrite Hc2, Hb2, Hc, Hb.
    split; [|split].
    + rewrite !add_commands_app, add_commands_adds. simpl. now rewrite app_nil_r.
    + rewrite filter_app.
      destruct (body_without n (body w) (fun x => x) Hfresh) as [_ ->]; [reflexivity|].
      simpl. rewrite Nat.eqb_refl. simpl. now rewrite app_nil_r.
    + rewrite filter_app.
      destruct (body_without n (body w) (fun x => x) Hfresh) as [_ ->]; [reflexivity|].
      simpl. rewrite Nat.eqb_refl. simpl. now rewrite app_nil_r.
Qed.

End Properties.

(** * The theorems at concrete inputs *)

(** The snapshot of [ex_state] seen by user 9, who owns none of it. *)
Lemma C10_no_match_renders_unable_to_load_witness :
  find_playlist_list (body (ex_world JS.Null [(0, ex_modal)] 1)) = Some 0
  /\ JS.truthy (currentUserId_of (ex_state (ex_user 9))) = true
  /\ container_html
       (body (populatePlaylistListFromRedux (ex_api (ex_state (ex_user 9)) ex_song)
                (ex_world JS.Null [(0, ex_modal)] 1))) =
     Some (Paragraph "color: #ff6b6b;" "Unable to load your playlists. Please try again.").
Proof.
  split; [reflexivity|]. split; [reflexivity|].
  apply (C10_no_match_renders_unable_to_load
           (ex_api (ex_state (ex_user 9)) ex_song)
           (ex_world JS.Null [(0, ex_modal)] 1) 0 (ex_state (ex_user 9))).
  - reflexivity.
  - reflexivity.
  - discriminate.
  - reflexivity.
  - intros playlist [<-|[<-|[<-|[]]]]; reflexivity.
Defined.

(** Selection [A; B; C] on a host whose add command throws for [B]. *)
Lemma batch_tolerates_partial_failure_witness :
  ["A"; "B"; "C"] <> []
  /\ resolve_songTitle ex_song = Return "Blue"
  /\ add_outcomes (ex_api (ex_state (ex_user 7)) ex_song) ex_song ["A"; "B"; "C"] tt
     = [Return tt; Throw "add failed"; Return tt]
  /\ fst (add_loop (ex_api (ex_state (ex_user 7)) ex_song) ex_song ["A"; "B"; "C"] 0 0
            (ex_world JS.Null [] 0)) = (2, 1)
  /\ add_commands
       (calls (addToSelectedPlaylists (ex_api (ex_state (ex_user 7)) ex_song) ex_song
                 ["A"; "B"; "C"] (ex_world JS.Null [] 0)))
     = [add_action ex_song "A"; add_action ex_song "B"; add_action ex_song "C"]
  /\ toasts
       (body (addToSelectedPlaylists (ex_api (ex_state (ex_user 7)) ex_song) ex_song
                ["A"; "B"; "C"] (ex_world JS.Null [] 0)))
     = [{| toast_text := dquote ++ "Blue" ++ dquote ++ " added to 2 playlists (1 failed)";
           toast_background := "#f44336";
           toast_transform := "translateX(300px)" |}].
Proof.
  split; [discriminate|]. split; [reflexivity|]. split; [reflexivity|].
  destruct (batch_tolerates_partial_failure
              (ex_api (ex_state (ex_user 7)) ex_song) ex_song ["A"; "B"; "C"] "Blue"
              (ex_world JS.Null [] 0)) as (_ & _ & _ & _ & Habc).
  - discriminate.
  - reflexivity.
  - exact (Habc "A" "B" "C" "add failed" eq_refl eq_refl).
Defined.

(** Selection [A; C] on the same host: both commands return. *)
Lemma batch_success_is_silent_witness :
  ["A"; "C"] <> []
  /\ resolve_songTitle ex_song = Return "Blue"
  /\ toasts
       (body (addToSelectedPlaylists (ex_api (ex_state (ex_user 7)) ex_song) ex_song
                ["A"; "C"] (ex_world JS.Null [] 0))) = [].
Proof.
  split; [discriminate|]. split; [reflexivity|].
  apply (batch_success_is_silent (ex_api (ex_state (ex_user 7)) ex_song) ex_song
           ["A"; "C"] "Blue" (ex_world JS.Null [] 0)).
  - discriminate.
  - reflexivity.
  - intros r [<-|[<-|[]]]; reflexivity.
Defined.

Lemma batch_one_command_per_selected_playlist_witness :
  ["A"; "B"] <> []
  /\ resolve_songTitle ex_song = Return "Blue"
  /\ exists issued : list AddAction,
       calls (addToSelectedPlaylists (ex_api (ex_state (ex_user 7)) ex_song) ex_song
                ["A"; "B"] (ex_world JS.Null [] 0))
       = (calls (ex_world JS.Null [] 0) ++ map AddMediaItemsToPlaylist issued)%list
       /\ issued =
          map (fun playlistId =>
                 {| playlistUUID := playlistId;
                    mediaItemIdsToAdd := [item_id ex_song];
                    addToIndex := (-1)%Z;
                    onDupes := "SKIP";
                    showNotification_flag := false |}) ["A"; "B"]
       /\ (NoDup ["A"; "B"] ->
           forall playlistId, In playlistId ["A"; "B"] ->
             List.length (filter (fun a => (playlistUUID a =? playlistId)%string) issued) = 1).
Proof.
  split; [discriminate|]. split; [reflexivity|].
  apply (batch_one_command_per_selected_playlist
           (ex_api (ex_state (ex_user 7)) ex_song) ex_song ["A"; "B"] "Blue"
           (ex_world JS.Null [] 0)).
  - discriminate.
  - reflexivity.
Defined.

(** A click in the initial state of the integration. *)
Lemma C7_click_without_captured_identity_witness :
  JS.truthy (contextMenuSongId (ex_world JS.Null [] 0)) = false
  /\ timers (ex_world JS.Null [] 0) = []
  /\ toasts (body (advance (ex_api (ex_state (ex_user 7)) ex_song) 100
                     (onClick (ex_world JS.Null [] 0))))
     = [{| toast_text := "No song selected";
           toast_background := "#f44336";
           toast_transform := "translateX(300px)" |}]
  /\ fromId_calls (calls (advance (ex_api (ex_state (ex_user 7)) ex_song) 100
                            (onClick (ex_world JS.Null [] 0)))) = [].
Proof.
  split; [reflexivity|]. split; [reflexivity|].
  destruct (C7_click_without_captured_identity
              (ex_api (ex_state (ex_user 7)) ex_song) (ex_world JS.Null [] 0) eq_refl)
    as (_ & Hclick).
  destruct (Hclick eq_refl) as (Hbody & _ & Hcalls).
  split.
  - change (100%Z) with (now (ex_world JS.Null [] 0) + 100)%Z.
    rewrite Hbody. reflexivity.
  - exact Hcalls.
Defined.

(** A toast created at time 0 is gone at time 3200. *)
Lemma C9_toast_removed_within_delay_witness :
  (now (ex_world JS.Null [] 0) + (3000 + 200) <= 3200)%Z
  /\ ~ In 0 (map fst (body (advance (ex_api (ex_state (ex_user 7)) ex_song) 3200
                              (showNotification "Saved" success (ex_world JS.Null [] 0))))).
Proof.
  split; [discriminate|].
  apply (C9_toast_removed_within_delay (ex_api (ex_state (ex_user 7)) ex_song)
           "Saved" success (ex_world JS.Null [] 0) 3200).
  discriminate.
Defined.

(** * Where the code departs from a sentence of the specification *)




(** C5, as stated: after a click on the captured song [s1] has been handled
    the identifier is still [s1], not null, and a second click with no
    menu-open event in between resolves [s1] a second time. *)
Lemma C5_second_click_finds_identity :
  contextMenuSongId
    (advance (ex_api (ex_state (ex_user 7)) ex_song) 100
       (onClick (ex_world (JS.Str "s1") [] 0))) = JS.Str "s1"
  /\ contextMenuSongId
       (advance (ex_api (ex_state (ex_user 7)) ex_song) 100
          (onClick (ex_world (JS.Str "s1") [] 0))) <> JS.Null
  /\ fromId_calls
       (calls (advance (ex_api (ex_state (ex_user 7)) ex_song) 200
                 (onClick (advance (ex_api (ex_state (ex_user 7)) ex_song) 100
                             (onClick (ex_world (JS.Str "s1") [] 0))))))
     = [(JS.Str "s1", "track"); (JS.Str "s1", "track")].
Proof.
  split; [reflexivity|]. split; [discriminate|reflexivity].
Qed.

(** The click flow at a song whose [title()] rejects: no modal, and the
    error toast of the caller. *)
Lemma title_rejection_in_click_flow :
  body (advance (ex_api (ex_state (ex_user 7)) ex_song_title_rejects) 100
          (onClick (ex_world (JS.Str "s1") [] 0)))
  = [(2, ToastNode {| toast_text := "Error loading song information";
                      toast_background := "#f44336";
                      toast_transform := "translateX(300px)" |})].
Proof. reflexivity. Qed.

(** The same flow at a song whose [artist()] rejects and whose title
    accessor is absent: the modal opens with both placeholders. *)
Lemma artist_rejection_in_click_flow :
  body (advance (ex_api (ex_state (ex_user 7)) ex_song_artist_rejects) 100
          (onClick (ex_world (JS.Str "s1") [] 0)))
  = [(0, OverlayNode
           {| modal_songTitle := "Unknown Song";
              modal_songArtist := "Unknown Artist";
              playlist_list :=
                Labels [{| row_playlist_id := "p1";
                           row_title := "p1";
                           row_tracks := "3 tracks" |}] |})].
Proof. reflexivity. Qed.

(** * The further properties at concrete inputs *)


Lemma redux_fallback_lists_every_owned_playlist_witness :
  find_playlist_list (body (ex_world JS.Null [(0, ex_modal)] 1)) = Some 0
  /\ filter (isCurrentUserPlaylist (currentUserId_of (ex_state (ex_user 7))))
       (map snd (playlists_of (ex_state (ex_user 7)))) <> []
  /\ exists rows,
       container_html
         (body (populatePlaylistListFromRedux (ex_api (ex_state (ex_user 7)) ex_song)
                  (ex_world JS.Null [(0, ex_modal)] 1))) = Some (Labels rows)
       /\ Forall2 (fun playlist row => redux_row playlist = Return row)
            (filter (isCurrentUserPlaylist (currentUserId_of (ex_state (ex_user 7))))
               (map snd (playlists_of (ex_state (ex_user 7))))) rows.
Proof.
  split; [reflexivity|]. split; [discriminate|].
  apply (redux_fallback_lists_every_owned_playlist
           (ex_api (ex_state (ex_user 7)) ex_song)
           (ex_world JS.Null [(0, ex_modal)] 1) 0 (ex_state (ex_user 7)));
    [reflexivity|reflexivity|discriminate].
Defined.

Lemma redux_fallback_unknown_user_empties_container_witness :
  playlists_of (ex_state None) <> []
  /\ JS.truthy (currentUserId_of (ex_state None)) = false
  /\ container_html
       (body (populatePlaylistListFromRedux (ex_api (ex_state None) ex_song)
                (ex_world JS.Null [(0, ex_modal)] 1))) = Some (Labels []).
Proof.
  split; [discriminate|]. split; [reflexivity|].
  apply (redux_fallback_unknown_user_empties_container
           (ex_api (ex_state None) ex_song)
           (ex_world JS.Null [(0, ex_modal)] 1) 0 (ex_state None));
    [reflexivity|reflexivity|discriminate|reflexivity].
Defined.

Lemma redux_fallback_error_and_empty_messages_witness :
  find_playlist_list (body (ex_world JS.Null [(0, ex_modal)] 1)) = Some 0
  /\ container_html
       (body (populatePlaylistListFromRedux
                (ex_api {| state_content := None; state_user := ex_user 7 |} ex_song)
                (ex_world JS.Null [(0, ex_modal)] 1))) =
     Some (Paragraph "opacity: 0.7;" "No playlists found. Create some playlists first!").
Proof.
  split; [reflexivity|].
  apply (proj2 (redux_fallback_error_and_empty_messages
                  (ex_api {| state_content := None; state_user := ex_user 7 |} ex_song)
                  (ex_world JS.Null [(0, ex_modal)] 1) 0 eq_refl)
           {| state_content := None; state_user := ex_user 7 |}).
  - reflexivity.
  - now left.
Defined.

Lemma api_result_is_rendered_unfiltered_witness :
  [Some (ex_api_playlist "q1"); Some (ex_api_playlist "q2")] <> []
  /\ ~ In None [Some (ex_api_playlist "q1"); Some (ex_api_playlist "q2")]
  /\ calls (populatePlaylistList
              (ex_api_with_query
                 (Return [Some (ex_api_playlist "q1"); Some (ex_api_playlist "q2")]))
              (ex_world JS.Null [(0, ex_modal)] 1)) = [PlaylistGetUserPlaylists].
Proof.
  split; [discriminate|].
  assert (Hobj : ~ In None [Some (ex_api_playlist "q1"); Some (ex_api_playlist "q2")]).
  { intros [H|[H|[]]]; discriminate. }
  split; [exact Hobj|].
  apply (api_result_is_rendered_unfiltered
           (ex_api_with_query
              (Return [Some (ex_api_playlist "q1"); Some (ex_api_playlist "q2")]))
           (ex_world JS.Null [(0, ex_modal)] 1) 0
           (fun h => (Return [Some (ex_api_playlist "q1"); Some (ex_api_playlist "q2")], h))
           [Some (ex_api_playlist "q1"); Some (ex_api_playlist "q2")] tt);
    [reflexivity|reflexivity|reflexivity|discriminate|exact Hobj].
Defined.

Lemma api_result_empty_or_with_null_witness :
  In None [Some (ex_api_playlist "q1"); None]
  /\ container_html
       (body (populatePlaylistList
                (ex_api_with_query (Return [Some (ex_api_playlist "q1"); None]))
                (ex_world JS.Null [(0, ex_modal)] 1))) =
     Some (Paragraph "color: #ff6b6b;" "Error loading playlists").
Proof.
  assert (Hnull : In None [Some (ex_api_playlist "q1"); None]) by (right; now left).
  split; [exact Hnull|].
  apply (proj2 (api_result_empty_or_with_null
                  (ex_api_with_query (Return [Some (ex_api_playlist "q1"); None]))
                  (ex_world JS.Null [(0, ex_modal)] 1) 0 PlaylistGetUserPlaylists
                  (fun h => (Return [Some (ex_api_playlist "q1"); None], h))
                  [Some (ex_api_playlist "q1"); None] tt eq_refl eq_refl eq_refl)).
  exact Hnull.
Defined.

(** The query method throws: the row shown comes from the redux path. *)
Lemma populatePlaylistList_rows_origin_witness :
  In {| row_playlist_id := "p1"; row_title := "p1"; row_tracks := "3 tracks" |}
     (surfaced (populatePlaylistList (ex_api_with_query (Throw "offline"))
                  (ex_world JS.Null [(0, ex_modal)] 1)))
  /\ ((exists tag call playlistsArray h playlist,
         playlist_query (ex_api_with_query (Throw "offline")) = Some (tag, call)
         /\ call (host (ex_world JS.Null [(0, ex_modal)] 1)) = (Return playlistsArray, h)
         /\ In (Some playlist) playlistsArray
         /\ api_row (Some playlist) =
            Return {| row_playlist_id := "p1"; row_title := "p1";
                      row_tracks := "3 tracks" |})
      \/ (exists state playlist,
            getState (ex_api_with_query (Throw "offline"))
              (host (populatePlaylistList (ex_api_with_query (Throw "offline"))
                       (ex_world JS.Null [(0, ex_modal)] 1))) = Return state
            /\ In (Some playlist) (map snd (playlists_of state))
            /\ pl_type playlist = JS.Str "USER"
            /\ JS.truthy (currentUserId_of state) = true
            /\ playlistCreatorId_of playlist = currentUserId_of state
            /\ redux_row (Some playlist) =
               Return {| row_playlist_id := "p1"; row_title := "p1";
                         row_tracks := "3 tracks" |})).
Proof.
  assert (H : In {| row_playlist_id := "p1"; row_title := "p1"; row_tracks := "3 tracks" |}
                (surfaced (populatePlaylistList (ex_api_with_query (Throw "offline"))
                             (ex_world JS.Null [(0, ex_modal)] 1)))) by (now left).
  split; [exact H|].
  exact (populatePlaylistList_rows_origin (ex_api_with_query (Throw "offline"))
           (ex_world JS.Null [(0, ex_modal)] 1) _ H).
Defined.

Lemma showPlaylistSelector_appends_one_modal_witness :
  resolve_songTitle ex_song = Return "Blue"
  /\ overlays (body (snd (showPlaylistSelector (ex_api (ex_state (ex_user 7)) ex_song)
                            ex_song (ex_world JS.Null [] 0)))) = [0].
Proof.
  split; [reflexivity|].
  exact (proj1 (proj2 (proj2 (showPlaylistSelector_appends_one_modal
                                (ex_api (ex_state (ex_user 7)) ex_song) ex_song "Blue"
                                (ex_world JS.Null [] 0) eq_refl)))).
Defined.

Lemma second_modal_is_left_empty_witness :
  find_playlist_list (body (ex_world JS.Null [(0, ex_modal)] 1)) = Some 0
  /\ 0 <> next_node (ex_world JS.Null [(0, ex_modal)] 1)
  /\ In (1, OverlayNode {| modal_songTitle := "Blue";
                           modal_songArtist := "Joni";
                           playlist_list := Labels [] |})
        (body (snd (showPlaylistSelector (ex_api (ex_state (ex_user 7)) ex_song) ex_song
                      (ex_world JS.Null [(0, ex_modal)] 1))))
  /\ container_html
       (body (snd (showPlaylistSelector (ex_api (ex_state (ex_user 7)) ex_song) ex_song
                     (ex_world JS.Null [(0, ex_modal)] 1)))) =
     Some (Labels [{| row_playlist_id := "p1"; row_title := "p1";
                      row_tracks := "3 tracks" |}]).
Proof.
  split; [reflexivity|]. split; [discriminate|].
  destruct (second_modal_is_left_empty (ex_api (ex_state (ex_user 7)) ex_song)
              ex_song "Blue" (ex_world JS.Null [(0, ex_modal)] 1) 0
              eq_refl (fun H => O_S 0 H) eq_refl) as (Hnew & _ & Hfilled).
  split; [exact Hnew|exact Hfilled].
Defined.

Lemma bulk_add_title_rejection_witness :
  ["A"; "B"] <> []
  /\ item_title ex_song_title_rejects = Some (Throw "title unavailable")
  /\ calls (addToSelectedPlaylists (ex_api (ex_state (ex_user 7)) ex_song)
              ex_song_title_rejects ["A"; "B"] (ex_world JS.Null [] 0)) = [].
Proof.
  split; [discriminate|]. split; [reflexivity|].
  apply (bulk_add_title_rejection (ex_api (ex_state (ex_user 7)) ex_song)
           ex_song_title_rejects ["A"; "B"] "title unavailable" (ex_world JS.Null [] 0));
    [discriminate|reflexivity].
Defined.

(** Selection [A; B] with B throwing: both commands are in the log. *)
Lemma bulk_add_footprint_witness :
  exists issued,
    calls (addToSelectedPlaylists (ex_api (ex_state (ex_user 7)) ex_song) ex_song
             ["A"; "B"] (ex_world JS.Null [] 0))
    = (calls (ex_world JS.Null [] 0) ++ map AddMediaItemsToPlaylist issued)%list
    /\ (issued = [] \/ issued = map (add_action ex_song) ["A"; "B"]).
Proof.
  exact (proj1 (proj2 (bulk_add_footprint (ex_api (ex_state (ex_user 7)) ex_song) ex_song
                         ["A"; "B"] (ex_world JS.Null [] 0)))).
Defined.

Lemma bulk_add_all_failed_witness :
  ["B"] <> []
  /\ resolve_songTitle ex_song = Return "Blue"
  /\ toasts (body (addToSelectedPlaylists (ex_api (ex_state (ex_user 7)) ex_song) ex_song
                     ["B"] (ex_world JS.Null [] 0))) =
     [{| toast_text := "Failed to add " ++ dquote ++ "Blue" ++ dquote ++ " to playlists";
         toast_background := "#f44336";
         toast_transform := "translateX(300px)" |}].
Proof.
  split; [discriminate|]. split; [reflexivity|].
  apply (bulk_add_all_failed (ex_api (ex_state (ex_user 7)) ex_song) ex_song ["B"] "Blue"
           (ex_world JS.Null [] 0)).
  - discriminate.
  - reflexivity.
  - intros r [<-|[]]. reflexivity.
Defined.

Lemma bulk_add_single_success_message_witness :
  count_succeeded (add_outcomes (ex_api (ex_state (ex_user 7)) ex_song) ex_song
                     ["A"; "B"] tt) = 1
  /\ 0 < 1
  /\ toasts (body (addToSelectedPlaylists (ex_api (ex_state (ex_user 7)) ex_song) ex_song
                     ["A"; "B"] (ex_world JS.Null [] 0))) =
     [{| toast_text := dquote ++ "Blue" ++ dquote ++ " added to 1 playlist (1 failed)";
         toast_background := "#f44336";
         toast_transform := "translateX(300px)" |}].
Proof.
  split; [reflexivity|]. split; [constructor|].
  apply (bulk_add_single_success_message (ex_api (ex_state (ex_user 7)) ex_song) ex_song
           ["A"; "B"] "Blue" 1 (ex_world JS.Null [] 0)).
  - discriminate.
  - reflexivity.
  - reflexivity.
  - reflexivity.
  - constructor.
Defined.

Lemma deferred_click_resolution_failures_witness :
  JS.truthy (contextMenuSongId (ex_world (JS.Str "s1") [] 0)) = true
  /\ toasts (body (contextMenuClick ex_api_unresolved (ex_world (JS.Str "s1") [] 0))) =
     [{| toast_text := "Could not load song information";
         toast_background := "#f44336";
         toast_transform := "translateX(300px)" |}].
Proof.
  split; [reflexivity|].
  exact (proj2 (proj1 (deferred_click_resolution_failures ex_api_unresolved
                         (ex_world (JS.Str "s1") [] 0) eq_refl) tt eq_refl)).
Defined.

Lemma menu_open_then_click_resolves_first_item_witness :
  timers (ex_world JS.Null [] 0) = []
  /\ JS.truthy (ref_id ex_ref) = true
  /\ fromId_calls
       (calls (advance (ex_api (ex_state (ex_user 7)) ex_song)
                 (now (ex_world JS.Null [] 0) + 100)
                 (onClick (onMediaItem (WithMediaItems (Return [Return ex_ref]))
                             (ex_world JS.Null [] 0))))) = [(JS.Str "s1", "track")].
Proof.
  split; [reflexivity|]. split; [reflexivity|].
  apply (menu_open_then_click_resolves_first_item (ex_api (ex_state (ex_user 7)) ex_song)
           (ex_world JS.Null [] 0) (WithMediaItems (Return [Return ex_ref])) ex_ref []).
  - reflexivity.
  - now left.
  - reflexivity.
Defined.

Lemma menu_open_without_item_keeps_earlier_capture_witness :
  timers (ex_world (JS.Str "s0") [] 0) = []
  /\ JS.truthy (contextMenuSongId (ex_world (JS.Str "s0") [] 0)) = true
  /\ contextMenuSongId (onMediaItem (Iterable (Return [])) (ex_world (JS.Str "s0") [] 0))
     = JS.Str "s0".
Proof.
  split; [reflexivity|]. split; [reflexivity|].
  exact (proj1 (proj2 (menu_open_without_item_keeps_earlier_capture
                         (ex_api (ex_state (ex_user 7)) ex_song)
                         (ex_world (JS.Str "s0") [] 0) (Iterable (Return []))
                         eq_refl (or_intror (or_intror eq_refl)) eq_refl))).
Defined.

Lemma menu_open_error_then_click_witness :
  timers (ex_world (JS.Str "s0") [] 0) = []
  /\ contextMenuSongId
       (onMediaItem (WithMediaItems (Throw "no items")) (ex_world (JS.Str "s0") [] 0))
     = JS.Null.
Proof.
  split; [reflexivity|].
  exact (proj1 (menu_open_error_then_click (ex_api (ex_state (ex_user 7)) ex_song)
                  (ex_world (JS.Str "s0") [] 0) (WithMediaItems (Throw "no items"))
                  "no items" [] eq_refl (or_introl eq_refl))).
Defined.

Lemma click_is_deferred_witness :
  timers (ex_world (JS.Str "s1") [] 0) = []
  /\ (99 < now (ex_world (JS.Str "s1") [] 0) + 100)%Z
  /\ calls (advance (ex_api (ex_state (ex_user 7)) ex_song) 99
              (onClick (ex_world (JS.Str "s1") [] 0))) = [ContextMenuClose].
Proof.
  split; [reflexivity|]. split; [reflexivity|].
  exact (proj1 (click_is_deferred (ex_api (ex_state (ex_user 7)) ex_song)
                  (ex_world (JS.Str "s1") [] 0) 99 eq_refl eq_refl)).
Defined.

Lemma toast_lifecycle_witness :
  ~ In (next_node (ex_world JS.Null [] 0)) (map fst (body (ex_world JS.Null [] 0)))
  /\ (100 < now (ex_world JS.Null [] 0) + 3200)%Z
  /\ node_at 0 (body (advance (ex_api (ex_state (ex_user 7)) ex_song) 100
                        (showNotification "Saved" success (ex_world JS.Null [] 0)))) =
     Some (ToastNode {| toast_text := "Saved";
                        toast_background := "#4caf50";
                        toast_transform := "translateX(0)" |}).
Proof.
  split; [intros []|]. split; [reflexivity|].
  apply (toast_lifecycle (ex_api (ex_state (ex_user 7)) ex_song) "Saved" success
           (ex_world JS.Null [] 0) 100).
  - intros [].
  - intros x [].
  - reflexivity.
Defined.

Lemma add_click_dismisses_and_keeps_outcome_witness :
  0 < next_node (ex_world JS.Null [(0, ex_modal)] 1)
  /\ ~ In 0 (map fst (body (add_click (ex_api (ex_state (ex_user 7)) ex_song) ex_song 0
                              ["B"] (ex_world JS.Null [(0, ex_modal)] 1)))).
Proof.
  split; [constructor|].
  apply (add_click_dismisses_and_keeps_outcome (ex_api (ex_state (ex_user 7)) ex_song)
           ex_song 0 ["B"] (ex_world JS.Null [(0, ex_modal)] 1)).
  - constructor.
  - intros t [H|[]]. discriminate.
Defined.

Lemma dismissal_has_no_side_effect_witness :
  (forall t, ~ In (0, ToastNode t) (body (ex_world JS.Null [(0, ex_modal)] 1)))
  /\ overlays (body (cancel_click 0 (ex_world JS.Null [(0, ex_modal)] 1))) = [].
Proof.
  assert (H : forall t, ~ In (0, ToastNode t) (body (ex_world JS.Null [(0, ex_modal)] 1))).
  { intros t [H|[]]. discriminate. }
  split; [exact H|].
  exact (proj1 (proj2 (proj2 (proj2 (dismissal_has_no_side_effect 0
                                        (ex_world JS.Null [(0, ex_modal)] 1) H))))).
Defined.

(** The scenario on the snapshot of [ex_state] seen by user 7, who owns
    [p1]: the boxes of two playlists are checked. *)
Lemma menu_click_select_add_witness :
  filter (isCurrentUserPlaylist (currentUserId_of (ex_state (ex_user 7))))
    (map snd (playlists_of (ex_state (ex_user 7)))) <> []
  /\ ["A"; "C"] <> []
  /\ add_commands
       (calls (add_click (ex_api (ex_state (ex_user 7)) ex_song) ex_song 0 ["A"; "C"]
                 (advance (ex_api (ex_state (ex_user 7)) ex_song) 100
                    (onClick (onMediaItem (Iterable (Return [Return ex_ref]))
                                (ex_world JS.Null [] 0))))))
     = [add_action ex_song "A"; add_action ex_song "C"].
Proof.
  split; [discriminate|]. split; [discriminate|].
  refine (proj1 (proj2 (proj2 (menu_click_select_add (ex_api (ex_state (ex_user 7)) ex_song)
                                 (ex_world JS.Null [] 0) ex_ref [] ex_song tt "Blue"
                                 (ex_state (ex_user 7)) ["A"; "C"]
                                 eq_refl eq_refl _ eq_refl eq_refl eq_refl eq_refl eq_refl
                                 _ _ _)))).
  - intros [].
  - discriminate.
  - discriminate.
  - intros r [<-|[<-|[]]]; reflexivity.
Defined.
